(** * Offline cache controller (service worker) of TuMatch Protocolos

    A shallow embedding of the service worker script: the install, activate
    and fetch handlers, the two serving strategies, the offline fallback and
    the maintenance pass over the dynamic store.

    The browser is the environment.  Its cache storage is modelled as an
    ordered list of named stores, each an ordered list of entries (the order
    is the insertion order that [keys()] reports).  The network and the
    faults of the storage back end are oracles indexed by a logical clock, so
    that every asynchronous call of the script may succeed or fail
    independently of the others.  Console output is not modelled. *)

From Stdlib Require Import String Ascii List Bool Arith Lia.
Import ListNotations.
Open Scope string_scope.
Open Scope list_scope.

(* ================================================================== *)
(** ** Strings as the script uses them *)

(** [String.prototype.includes]: [needle] occurs somewhere in [hay]. *)
Fixpoint includes (needle hay : string) : bool :=
  String.prefix needle hay
  || match hay with
     | EmptyString => false
     | String _ rest => includes needle rest
     end.

(** [String.prototype.startsWith]. *)
Definition startsWith (p s : string) : bool := String.prefix p s.

(** A pattern ending in [$]: [suf] is the tail of [s]. *)
Definition endsWith (suf s : string) : bool :=
  Nat.leb (String.length suf) (String.length s)
  && (substring (String.length s - String.length suf) (String.length suf) s =? suf).

(** The regular expressions of the script are of two shapes only: a literal
    that may occur anywhere, and a literal anchored at the end. *)
Inductive Pattern : Type :=
| Anywhere (lit : string)
| AtEnd (lit : string).

(** [RegExp.prototype.test]. *)
Definition test (p : Pattern) (s : string) : bool :=
  match p with
  | Anywhere lit => includes lit s
  | AtEnd lit => endsWith lit s
  end.

(** [patterns.some(pattern => pattern.test(s))]. *)
Definition some_test (ps : list Pattern) (s : string) : bool :=
  existsb (fun p => test p s) ps.

(* ================================================================== *)
(** ** Requests and responses *)

(** The parts of a parsed [URL] that the script reads. *)
Record URL : Type := mkURL {
  href : string;
  protocol : string;
  origin : string;
  pathname : string
}.

Record Request : Type := mkRequest {
  url : URL;
  method : string;
  req_headers : list (string * string)   (* names in lower case *)
}.

Record Response : Type := mkResponse {
  status : nat;
  statusText : string;
  resp_headers : list (string * string);
  body : string
}.

(** [response.ok]: the status is in the range 200-299. *)
Definition ok (r : Response) : bool :=
  Nat.leb 200 (status r) && Nat.leb (status r) 299.

(** [headers.get(name)]. *)
Fixpoint headers_get (name : string) (hs : list (string * string)) : option string :=
  match hs with
  | [] => None
  | (n, v) :: rest => if n =? name then Some v else headers_get name rest
  end.

(** [request.headers.get('accept')?.includes(what)]; an absent header gives
    [undefined], which the conditions of the script treat as false. *)
Definition accepts (what : string) (request : Request) : bool :=
  match headers_get "accept" (req_headers request) with
  | Some v => includes what v
  | None => false
  end.

(** The key under which a store files a request: its URL. *)
Definition key (request : Request) : string := href (url request).

(* ================================================================== *)
(** ** Cache storage *)

(** One store: entries in insertion order, at most one per key. *)
Definition Cache : Type := list (string * Response).

Fixpoint cache_lookup (k : string) (c : Cache) : option Response :=
  match c with
  | [] => None
  | (k', r) :: rest => if k' =? k then Some r else cache_lookup k rest
  end.

Definition cache_remove (k : string) (c : Cache) : Cache :=
  filter (fun e => negb (fst e =? k)) c.

(** [put] drops the entry of the key, if any, and appends the new one. *)
Definition cache_insert (k : string) (r : Response) (c : Cache) : Cache :=
  cache_remove k c ++ [(k, r)].

Definition cache_keys (c : Cache) : list string := map fst c.

(** The stores, in creation order. *)
Definition CacheStorage : Type := list (string * Cache).

Fixpoint storage_lookup (name : string) (s : CacheStorage) : option Cache :=
  match s with
  | [] => None
  | (n, c) :: rest => if n =? name then Some c else storage_lookup name rest
  end.

Fixpoint storage_update (name : string) (f : Cache -> Cache) (s : CacheStorage)
  : CacheStorage :=
  match s with
  | [] => []
  | (n, c) :: rest =>
      if n =? name then (n, f c) :: rest else (n, c) :: storage_update name f rest
  end.

(** [caches.open] creates the store when it does not exist yet. *)
Definition storage_ensure (name : string) (s : CacheStorage) : CacheStorage :=
  match storage_lookup name s with
  | Some _ => s
  | None => s ++ [(name, [])]
  end.

Definition storage_delete (name : string) (s : CacheStorage) : CacheStorage :=
  filter (fun e => negb (fst e =? name)) s.

Definition storage_names (s : CacheStorage) : list string := map fst s.

(** The entries of a store; a store that does not exist has none. *)
Definition entries_of (name : string) (s : CacheStorage) : Cache :=
  match storage_lookup name s with
  | Some c => c
  | None => []
  end.

(* ================================================================== *)
(** ** The world and the environment *)

(** What the script asks of the browser, in the order it asks. *)
Inductive Event : Type :=
| EvFetch (k : string)
| EvOpen (name : string)
| EvMatch (name k : string)
| EvPut (name k : string)
| EvDelete (name k : string)
| EvAddAll (name : string)
| EvKeys
| EvCacheKeys (name : string)
| EvDeleteStore (name : string).

(** Work started and not awaited: what is left of an async function after
    its first [await]. *)
Inductive Task : Type :=
| BgUpdate (request : Request) (cache : string).

Record World : Type := mkWorld {
  storage : CacheStorage;
  clock : nat;
  trace : list Event;
  pending : list Task;
  skippedWaiting : bool;
  claimed : bool
}.

Inductive FetchOutcome : Type :=
| Resolved (r : Response)
| Rejected.

Record Env : Type := mkEnv {
  location_origin : string;
  network : nat -> Request -> FetchOutcome;
  storage_fault : nat -> bool
}.

(** The storage back end never fails. *)
Definition healthy (env : Env) : Prop := forall t, storage_fault env t = false.

Definition set_storage (s : CacheStorage) (w : World) : World :=
  mkWorld s (clock w) (trace w) (pending w) (skippedWaiting w) (claimed w).

(** One step of the browser: the clock advances and the call is recorded. *)
Definition step (e : Event) (w : World) : World :=
  mkWorld (storage w) (S (clock w)) (trace w ++ [e]) (pending w)
          (skippedWaiting w) (claimed w).

(** A call is made and recorded, and its promise is not settled yet: the
    clock stands still. *)
Definition record (e : Event) (w : World) : World :=
  mkWorld (storage w) (clock w) (trace w ++ [e]) (pending w)
          (skippedWaiting w) (claimed w).

(** A promise settles: the clock advances. *)
Definition tick (w : World) : World :=
  mkWorld (storage w) (S (clock w)) (trace w) (pending w)
          (skippedWaiting w) (claimed w).

Definition add_pending (t : Task) (w : World) : World :=
  mkWorld (storage w) (clock w) (trace w) (pending w ++ [t])
          (skippedWaiting w) (claimed w).

Definition set_pending (ts : list Task) (w : World) : World :=
  mkWorld (storage w) (clock w) (trace w) ts (skippedWaiting w) (claimed w).

Definition set_skippedWaiting (w : World) : World :=
  mkWorld (storage w) (clock w) (trace w) (pending w) true (claimed w).

Definition set_claimed (w : World) : World :=
  mkWorld (storage w) (clock w) (trace w) (pending w) (skippedWaiting w) true.

(* ================================================================== *)
(** ** Asynchronous code: state and exceptions *)

Inductive Error : Type :=
| NetworkError     (* the TypeError of a fetch that could not complete *)
| BadStatus        (* the TypeError of addAll on an answer that is not ok *)
| StorageError.    (* a rejection of the cache storage *)

Inductive Result (A : Type) : Type :=
| Ok (a : A)
| Throw (e : Error).
Arguments Ok {A} a.
Arguments Throw {A} e.

(** An awaited computation: it ends with a value or a rejection, and the
    world it leaves behind. *)
Definition M (A : Type) : Type := World -> Result A * World.

Definition ret {A} (a : A) : M A := fun w => (Ok a, w).

Definition throw {A} (e : Error) : M A := fun w => (Throw e, w).

Definition bind {A B} (m : M A) (k : A -> M B) : M B :=
  fun w =>
    match m w with
    | (Ok a, w') => k a w'
    | (Throw e, w') => (Throw e, w')
    end.

(** [try { m } catch (error) { h error }]. *)
Definition try_catch {A} (m : M A) (h : Error -> M A) : M A :=
  fun w =>
    match m w with
    | (Ok a, w') => (Ok a, w')
    | (Throw e, w') => h e w'
    end.

Declare Scope worker_scope.
Delimit Scope worker_scope with worker.
Notation "x <- m ;; k" := (bind m (fun x => k))
  (at level 61, m at next level, right associativity) : worker_scope.
Notation "m ;;; k" := (bind m (fun _ => k))
  (at level 61, right associativity) : worker_scope.
Open Scope worker_scope.

Definition result_of {A} (p : Result A * World) : Result A := fst p.
Definition world_of {A} (p : Result A * World) : World := snd p.

(* ================================================================== *)
(** ** Configuration of the script *)

Definition CACHE_NAME : string := "tumatch-protocolo-v1.0.0".
Definition STATIC_CACHE : string := (CACHE_NAME ++ "-static")%string.
Definition DYNAMIC_CACHE : string := (CACHE_NAME ++ "-dynamic")%string.

(** Assets to cache immediately. *)
Definition STATIC_ASSETS : list string :=
  [ "/"; "/Inicio.html"; "/css/variables.css"; "/css/base.css";
    "/css/components.css"; "/css/layout.css"; "/js/utils.js"; "/js/search.js";
    "/js/modal.js"; "/js/main.js"; "/manifest.json" ].

(** Assets to cache on first request. *)
Definition DYNAMIC_ASSETS_PATTERNS : list Pattern :=
  [ AtEnd ".html"; AtEnd ".css"; AtEnd ".js"; AtEnd ".png"; AtEnd ".jpg";
    AtEnd ".jpeg"; AtEnd ".svg"; AtEnd ".webp" ].

(** Network-first patterns (always try network first). *)
Definition NETWORK_FIRST_PATTERNS : list Pattern :=
  [ Anywhere "/api/"; Anywhere "googleapis.com"; Anywhere "googleusercontent.com";
    Anywhere "youtube.com"; Anywhere "docs.google.com" ].

(** The stores of this application carry this prefix. *)
Definition APP_PREFIX : string := "tumatch-protocolo-".

(** The ceiling of the dynamic store and the size of one eviction. *)
Definition CLEANUP_CEILING : nat := 50.
Definition CLEANUP_BATCH : nat := 10.

(* ------------------------------------------------------------------ *)
(** *** The two synthesized responses *)

Definition dq : string := String (ascii_of_nat 34) EmptyString.
Definition nl : string := String (ascii_of_nat 10) EmptyString.

Fixpoint spaces (n : nat) : string :=
  match n with
  | O => EmptyString
  | S m => String " "%char (spaces m)
  end.

(** [name="value"]. *)
Definition attr (name value : string) : string :=
  (name ++ "=" ++ dq ++ value ++ dq)%string.

Definition placeholder_svg : string :=
  ("<svg " ++ attr "xmlns" "http://www.w3.org/2000/svg" ++ " "
     ++ attr "width" "200" ++ " " ++ attr "height" "150" ++ " "
     ++ attr "viewBox" "0 0 200 150" ++ ">" ++ nl
   ++ spaces 16 ++ "<rect " ++ attr "width" "200" ++ " " ++ attr "height" "150"
     ++ " " ++ attr "fill" "#f0f0f0" ++ "/>" ++ nl
   ++ spaces 16 ++ "<text " ++ attr "x" "50%" ++ " " ++ attr "y" "50%" ++ " "
     ++ attr "text-anchor" "middle" ++ " " ++ attr "dy" ".3em" ++ " "
     ++ attr "fill" "#999" ++ ">" ++ nl
   ++ spaces 20 ++ "Sin conexión" ++ nl
   ++ spaces 16 ++ "</text>" ++ nl
   ++ spaces 12 ++ "</svg>")%string.

(** The placeholder image; a [Response] built without a status has 200. *)
Definition placeholder_response : Response :=
  mkResponse 200 ""
    [ ("Content-Type", "image/svg+xml"); ("Cache-Control", "no-cache") ]
    placeholder_svg.

(** The generic offline response. *)
Definition offline_response : Response :=
  mkResponse 503 "Service Unavailable"
    [ ("Content-Type", "text/plain") ]
    "Contenido no disponible sin conexión".

(* ================================================================== *)
(** ** The calls of the browser *)

Section Worker.

Variable env : Env.

(** [new Request(path)]: the path is resolved against the worker's origin.
    The page registers the worker under [https:] only. *)
Definition new_Request (path : string) : Request :=
  mkRequest
    (mkURL (location_origin env ++ path)%string "https:" (location_origin env) path)
    "GET" [].

(** [fetch(request)]: rejects when the network cannot answer; an answer of
    any status resolves. *)
Definition fetch (request : Request) : M Response :=
  fun w =>
    let w' := step (EvFetch (key request)) w in
    match network env (clock w) request with
    | Resolved r => (Ok r, w')
    | Rejected => (Throw NetworkError, w')
    end.

(** The two halves of [fetch(request)] when it is not awaited at once: the
    call, by which the request goes out, and the settling of its promise, at
    which the network decides. *)
Definition issue_fetch (request : Request) : M unit :=
  fun w => (Ok tt, record (EvFetch (key request)) w).

Definition await_fetch (request : Request) : M Response :=
  fun w =>
    match network env (clock w) request with
    | Resolved r => (Ok r, tick w)
    | Rejected => (Throw NetworkError, tick w)
    end.

(** [caches.open(name)]; the handle of a store is its name. *)
Definition caches_open (name : string) : M string :=
  fun w =>
    let w' := step (EvOpen name) w in
    if storage_fault env (clock w) then (Throw StorageError, w')
    else (Ok name, set_storage (storage_ensure name (storage w)) w').

(** [cache.match(request)]. *)
Definition cache_match (cache : string) (request : Request) : M (option Response) :=
  fun w =>
    let w' := step (EvMatch cache (key request)) w in
    if storage_fault env (clock w) then (Throw StorageError, w')
    else (Ok (cache_lookup (key request) (entries_of cache (storage w))), w').

(** [cache.put(request, response.clone())] as the script calls it: the
    promise is dropped, so the caller goes on at once and a rejection of the
    write reaches nobody. *)
Definition cache_put (cache : string) (request : Request) (response : Response)
  : M unit :=
  fun w =>
    let w' := step (EvPut cache (key request)) w in
    if storage_fault env (clock w) then (Ok tt, w')
    else (Ok tt,
          set_storage
            (storage_update cache (cache_insert (key request) response) (storage w))
            w').

(** [cache.delete(request)], awaited. *)
Definition cache_delete (cache : string) (k : string) : M bool :=
  fun w =>
    let w' := step (EvDelete cache k) w in
    if storage_fault env (clock w) then (Throw StorageError, w')
    else
      (Ok (match cache_lookup k (entries_of cache (storage w)) with
           | Some _ => true
           | None => false
           end),
       set_storage (storage_update cache (cache_remove k) (storage w)) w').

(** [cache.keys()]: the requests of the store, oldest first. *)
Definition cache_keys_of (cache : string) : M (list string) :=
  fun w =>
    let w' := step (EvCacheKeys cache) w in
    if storage_fault env (clock w) then (Throw StorageError, w')
    else (Ok (cache_keys (entries_of cache (storage w))), w').

(** [caches.keys()]: the names of the stores, oldest first. *)
Definition caches_keys : M (list string) :=
  fun w =>
    let w' := step EvKeys w in
    if storage_fault env (clock w) then (Throw StorageError, w')
    else (Ok (storage_names (storage w)), w').

(** [caches.delete(name)]. *)
Definition caches_delete (name : string) : M bool :=
  fun w =>
    let w' := step (EvDeleteStore name) w in
    if storage_fault env (clock w) then (Throw StorageError, w')
    else
      (Ok (match storage_lookup name (storage w) with
           | Some _ => true
           | None => false
           end),
       set_storage (storage_delete name (storage w)) w').

(** [Promise.all] over calls that have all been started: each one runs to
    its end whatever the others do, and the first rejection is the result. *)
Fixpoint promise_all {A} (ms : list (M A)) : M (list A) :=
  match ms with
  | [] => ret []
  | m :: rest =>
      fun w =>
        match m w with
        | (Ok a, w1) =>
            match promise_all rest w1 with
            | (Ok l, w2) => (Ok (a :: l), w2)
            | (Throw e, w2) => (Throw e, w2)
            end
        | (Throw e, w1) => (Throw e, snd (promise_all rest w1))
        end
  end.

(** The fetches of [cache.addAll]: a rejected fetch or an answer that is not
    [ok] rejects the whole batch.  The browser starts the fetches together;
    here they are taken in the order of the list, and those after the first
    failure are left out, which changes the trace but not the stores. *)
Fixpoint fetch_all (requests : list Request) : M (list (string * Response)) :=
  match requests with
  | [] => ret []
  | r :: rest =>
      response <- fetch r ;;
      (if ok response then ret tt else throw BadStatus) ;;;
      others <- fetch_all rest ;;
      ret ((key r, response) :: others)
  end.

(** [cache.addAll(paths)]: every asset is fetched, and the entries are
    written together or not at all. *)
Definition cache_addAll (cache : string) (paths : list string) : M unit :=
  fetched <- fetch_all (map new_Request paths) ;;
  fun w =>
    let w' := step (EvAddAll cache) w in
    if storage_fault env (clock w) then (Throw StorageError, w')
    else
      (Ok tt,
       set_storage
         (storage_update cache
            (fun c => fold_left (fun acc e => cache_insert (fst e) (snd e) acc) fetched c)
            (storage w))
         w').

(** [self.skipWaiting()] and [self.clients.claim()]. *)
Definition skipWaiting : M unit := fun w => (Ok tt, set_skippedWaiting w).
Definition clients_claim : M unit := fun w => (Ok tt, set_claimed w).

(** A call of an async function that is not awaited: the function runs at
    once to its first [await], and what follows is left pending.  The first
    [await] of [updateCacheInBackground] is on [fetch(request)]: the request
    goes out within the caller. *)
Definition spawn (t : Task) : M unit :=
  match t with
  | BgUpdate request cache =>
      issue_fetch request ;;;
      (fun w => (Ok tt, add_pending t w))
  end.

(* ================================================================== *)
(** ** The script *)

(** Install event - cache static assets.  The body is what the handler
    passes to [event.waitUntil]. *)
Definition install : M unit :=
  try_catch
    (cache <- caches_open STATIC_CACHE ;;
     cache_addAll cache STATIC_ASSETS ;;;
     (* Force activate new service worker *)
     skipWaiting)
    (fun _ => ret tt).

(** A store to clean up on activation. *)
Definition is_old_cache (name : string) : bool :=
  startsWith APP_PREFIX name
  && negb (name =? STATIC_CACHE) && negb (name =? DYNAMIC_CACHE).

(** Activate event - clean up old caches. *)
Definition activate : M unit :=
  try_catch
    (cacheNames <- caches_keys ;;
     promise_all (map caches_delete (filter is_old_cache cacheNames)) ;;;
     (* Take control of all clients *)
     clients_claim)
    (fun _ => ret tt).

Definition updateCacheInBackground (request : Request) (cache : string) : M unit :=
  try_catch
    (response <- fetch request ;;
     if ok response then cache_put cache request response else ret tt)
    (fun _ => (* Silently fail background updates *) ret tt).

(** [updateCacheInBackground] from its first [await] on, the fetch being
    issued already. *)
Definition updateCacheInBackground_resumed (request : Request) (cache : string)
  : M unit :=
  try_catch
    (response <- await_fetch request ;;
     if ok response then cache_put cache request response else ret tt)
    (fun _ => (* Silently fail background updates *) ret tt).

Definition cacheFirst (request : Request) : M Response :=
  cache <- caches_open STATIC_CACHE ;;
  cached <- cache_match cache request ;;
  match cached with
  | Some hit =>
      (* Update cache in background *)
      spawn (BgUpdate request cache) ;;;
      ret hit
  | None =>
      (* Not in cache, try network *)
      response <- fetch request ;;
      (if ok response then cache_put cache request response else ret tt) ;;;
      ret response
  end.

Definition getCachedResponse (request : Request) : M (option Response) :=
  (* Try static cache first *)
  cache <- caches_open STATIC_CACHE ;;
  cached <- cache_match cache request ;;
  match cached with
  | Some hit => ret (Some hit)
  | None =>
      (* Try dynamic cache *)
      cache <- caches_open DYNAMIC_CACHE ;;
      cache_match cache request
  end.

Definition shouldCache (request : Request) : bool :=
  (* Don't cache external APIs *)
  if some_test NETWORK_FIRST_PATTERNS (href (url request)) then false
  else
    (* Cache assets that match our patterns *)
    some_test DYNAMIC_ASSETS_PATTERNS (pathname (url request)).

Definition networkFirst (request : Request) : M Response :=
  try_catch
    (response <- fetch request ;;
     (if ok response && shouldCache request
      then cache <- caches_open DYNAMIC_CACHE ;; cache_put cache request response
      else ret tt) ;;;
     ret response)
    (fun error =>
       (* Network failed, try cache *)
       cached <- getCachedResponse request ;;
       match cached with
       | Some hit => ret hit
       | None => throw error
       end).

Definition getOfflineFallback (request : Request) : M Response :=
  (* HTML pages - return cached main page *)
  page <- (if accepts "text/html" request
           then getCachedResponse (new_Request "/Inicio.html")
           else ret None) ;;
  match page with
  | Some hit => ret hit
  | None =>
      (* Images - return placeholder or cached version *)
      if accepts "image" request then
        cached <- getCachedResponse request ;;
        match cached with
        | Some hit => ret hit
        | None => ret placeholder_response
        end
      else
        (* Return generic offline response *)
        ret offline_response
  end.

Definition handleFetch (request : Request) : M Response :=
  try_catch
    ((* Network-first strategy for external APIs *)
     if some_test NETWORK_FIRST_PATTERNS (href (url request)) then
       networkFirst request
     (* Cache-first strategy for static assets *)
     else if existsb (String.eqb (pathname (url request))) STATIC_ASSETS
             || (origin (url request) =? location_origin env) then
       cacheFirst request
     (* Network-first with cache fallback for everything else *)
     else networkFirst request)
    (fun _ => (* Return offline fallback if available *) getOfflineFallback request).

(** Fetch event: [None] when the handler returns without [respondWith], so
    that the browser handles the request as if there were no worker. *)
Definition onFetch (request : Request) : option (M Response) :=
  (* Skip non-GET requests *)
  if negb (method request =? "GET") then None
  (* Skip Chrome extensions *)
  else if protocol (url request) =? "chrome-extension:" then None
  else Some (handleFetch request).

(** Cleanup function for cache management. *)
Definition cleanupCaches : M unit :=
  dynamicCache <- caches_open DYNAMIC_CACHE ;;
  requests <- cache_keys_of dynamicCache ;;
  (* Remove old entries if cache is getting too large *)
  if Nat.ltb CLEANUP_CEILING (List.length requests) then
    promise_all (map (cache_delete dynamicCache) (firstn CLEANUP_BATCH requests)) ;;;
    ret tt
  else ret tt.

(* ------------------------------------------------------------------ *)
(** *** The host around the script *)

(** [event.waitUntil(promise)] on install: the installation fails exactly
    when the promise rejects. *)
Inductive InstallOutcome : Type :=
| Installed
| InstallFailed.

Definition install_event (w : World) : InstallOutcome * World :=
  match install w with
  | (Ok _, w') => (Installed, w')
  | (Throw _, w') => (InstallFailed, w')
  end.

Definition run_task (t : Task) : M unit :=
  match t with
  | BgUpdate request cache => updateCacheInBackground_resumed request cache
  end.

(** The work that was started and not awaited runs to its end; what it
    returns or throws reaches nobody. *)
Definition settle (w : World) : World :=
  fold_left (fun acc t => snd (run_task t acc)) (pending w) (set_pending [] w).

End Worker.

(** The world of a first installation: no store, nothing called yet. *)
Definition fresh_world : World := mkWorld [] 0 [] [] false false.

(* ================================================================== *)
(** ** The routing policy as a rule table *)

(** The classification as the specification words it: an ordered list of
    rules, evaluated top-down, and a default.  [handleFetch] above is the
    chain of conditionals of the script; the two are compared below. *)
Inductive Strategy : Type :=
| CacheFirst
| NetworkFirst.

Definition matches_network_first (request : Request) : bool :=
  some_test NETWORK_FIRST_PATTERNS (href (url request)).

Definition is_static_asset (request : Request) : bool :=
  existsb (String.eqb (pathname (url request))) STATIC_ASSETS.

Definition same_origin (env : Env) (request : Request) : bool :=
  (origin (url request) =? location_origin env)%string.

(** The rules in the order of the classification; the first rule whose
    predicate holds gives the strategy. *)
Definition routing_rules (env : Env) : list ((Request -> bool) * Strategy) :=
  [ (matches_network_first, NetworkFirst);
    (fun request => is_static_asset request || same_origin env request, CacheFirst) ].

Fixpoint first_match (rules : list ((Request -> bool) * Strategy))
         (default : Strategy) (request : Request) : Strategy :=
  match rules with
  | [] => default
  | (applies, strategy) :: rest =>
      if applies request then strategy else first_match rest default request
  end.

Definition classify (env : Env) (request : Request) : Strategy :=
  first_match (routing_rules env) NetworkFirst request.

Definition run_strategy (env : Env) (s : Strategy) (request : Request) : M Response :=
  match s with
  | CacheFirst => cacheFirst env request
  | NetworkFirst => networkFirst env request
  end.

(* ================================================================== *)
(** ** Vocabulary of the properties *)

(** The entry of [k] in the store [name], if both exist. *)
Definition entry (name k : string) (w : World) : option Response :=
  cache_lookup k (entries_of name (storage w)).

(** The lookup across the static store, then the dynamic store. *)
Definition first_hit (k : string) (w : World) : option Response :=
  match entry STATIC_CACHE k w with
  | Some hit => Some hit
  | None => entry DYNAMIC_CACHE k w
  end.

(** Whatever [m] returns or throws, it moves the world along [R]. *)
Definition respects (R : World -> World -> Prop) {A} (m : M A) : Prop :=
  forall w, R w (snd (m w)).

(** Every entry outside [allowed] reads the same in [w'] as in [w]. *)
Definition untouched (allowed : string -> string -> Prop) (w w' : World) : Prop :=
  forall name k, ~ allowed name k -> entry name k w' = entry name k w.

(** Two footprints: no entry at all, and the entry of one key in one store. *)
Definition nowhere : string -> string -> Prop := fun _ _ => False.

Definition only_at (cache k0 : string) : string -> string -> Prop :=
  fun name k => name = cache /\ k = k0.

(** A computation that writes inside [allowed] only. *)
Definition writes_only {A} (allowed : string -> string -> Prop) (m : M A) : Prop :=
  respects (untouched allowed) m.

(** The tasks started between [w] and [w'] all satisfy [P]. *)
Definition started (P : Task -> Prop) (w w' : World) : Prop :=
  exists l, pending w' = pending w ++ l /\ Forall P l.

Definition no_task : Task -> Prop := fun _ => False.

(** The entries that remain after deleting the keys [ks] one by one. *)
Definition delete_keys (ks : list string) (c : Cache) : Cache :=
  fold_left (fun acc k => cache_remove k acc) ks c.

(** No key twice, decided. *)
Fixpoint distinct (l : list string) : bool :=
  match l with
  | [] => true
  | k :: rest => negb (existsb (String.eqb k) rest) && distinct rest
  end.

(** Every critical asset can be fetched, at any time. *)
Definition assets_served (env : Env) : Prop :=
  forall t path, In path STATIC_ASSETS ->
                 exists r, network env t (new_Request env path) = Resolved r
                           /\ ok r = true.

(** The keys of the critical assets, as [addAll] files them. *)
Definition asset_keys (env : Env) : list string :=
  map (fun path => key (new_Request env path)) STATIC_ASSETS.

(** A scheme that the web serves. *)
Definition is_http_scheme (p : string) : bool :=
  (p =? "http:")%string || (p =? "https:")%string.

(* ================================================================== *)
(** ** Sample requests, networks and worlds *)

Definition sample_origin : string := "https://protocolos.example".

Definition get_request (u : URL) (accept : string) : Request :=
  mkRequest u "GET" [("accept", accept)].

Definition local_url (path : string) : URL :=
  mkURL (sample_origin ++ path)%string "https:" sample_origin path.

Definition api_url : URL :=
  mkURL "https://www.googleapis.com/youtube/v3/videos" "https:"
        "https://www.googleapis.com" "/youtube/v3/videos".

Definition cdn_url : URL :=
  mkURL "https://cdn.example/lib/chart.js" "https:" "https://cdn.example"
        "/lib/chart.js".

Definition extension_url : URL :=
  mkURL "moz-extension://4f2c9a/inject.js" "moz-extension:" "null" "/inject.js".

Definition answer (code : nat) (text : string) : Response :=
  mkResponse code "" [("Content-Type", "text/plain")] text.

(** A network that answers every request with 200. *)
Definition env_online : Env :=
  mkEnv sample_origin (fun _ request => Resolved (answer 200 (key request)))
        (fun _ => false).

(** No network at all. *)
Definition env_offline : Env :=
  mkEnv sample_origin (fun _ _ => Rejected) (fun _ => false).

(** A server that answers every request with an error page. *)
Definition env_server_error : Env :=
  mkEnv sample_origin (fun _ _ => Resolved (answer 500 "Internal Server Error"))
        (fun _ => false).

(** A working network, and a cache storage that rejects every call. *)
Definition env_storage_down : Env :=
  mkEnv sample_origin (fun _ request => Resolved (answer 200 (key request)))
        (fun _ => true).

(** A network on which one critical asset cannot be fetched. *)
Definition env_asset_missing : Env :=
  mkEnv sample_origin
        (fun _ request =>
           if (pathname (url request) =? "/css/base.css")%string then Rejected
           else Resolved (answer 200 (key request)))
        (fun _ => false).

Definition world_with (s : CacheStorage) : World := mkWorld s 0 [] [] false false.

Definition two_digits (i : nat) : string :=
  String (ascii_of_nat (48 + i / 10)) (String (ascii_of_nat (48 + i mod 10)) EmptyString).

(** A store of [n] pictures, cached one after the other. *)
Definition gallery (n : nat) : Cache :=
  map (fun i => ((sample_origin ++ "/img/foto-" ++ two_digits i ++ ".png")%string,
                 answer 200 (two_digits i)))
      (seq 0 n).

(** The stores that an earlier version of the worker left behind. *)
Definition world_of_previous_version : World :=
  world_with
    [ ("tumatch-protocolo-v0.9.0-static",
       [((sample_origin ++ "/Inicio.html")%string, answer 200 "v0.9")]);
      ("tumatch-protocolo-v0.9.0-dynamic",
       [((sample_origin ++ "/img/logo.png")%string, answer 200 "logo")]) ].

(** The world after a first installation on a working network. *)
Definition installed_world : World := snd (install_event env_online fresh_world).


(* ================================================================== *)
(** ** Relations between two states of the cache storage *)

(** A relation on storages, read on worlds. *)
Definition on_storage (Rs : CacheStorage -> CacheStorage -> Prop) (w w' : World) : Prop :=
  Rs (storage w) (storage w').

Definition lookup_entry (name k : string) (s : CacheStorage) : option Response :=
  cache_lookup k (entries_of name s).

(** Every entry of [s'] was already in [s], or holds a successful answer. *)
Definition kept_or_ok (s s' : CacheStorage) : Prop :=
  forall name k r,
    lookup_entry name k s' = Some r -> lookup_entry name k s = Some r \/ ok r = true.

(** The stores that are not old are the same in [s'] as in [s]. *)
Definition keeps_current (s s' : CacheStorage) : Prop :=
  forall name, is_old_cache name = false -> storage_lookup name s' = storage_lookup name s.

(** The calls made between [w] and [w'] all satisfy [P]. *)
Definition called (P : Event -> Prop) (w w' : World) : Prop :=
  exists l, trace w' = trace w ++ l /\ Forall P l.

Definition is_storage_call (e : Event) : Prop :=
  match e with
  | EvFetch _ => False
  | _ => True
  end.

(** What the page gets for a request that neither the network nor a store
    can answer. *)
Definition offline_answer (env : Env) (request : Request) (w : World) : Response :=
  match (if accepts "text/html" request
         then first_hit (key (new_Request env "/Inicio.html")) w
         else None) with
  | Some home => home
  | None => if accepts "image" request then placeholder_response else offline_response
  end.

(* ================================================================== *)
(** ** The search of the card grid *)

(** One searchable card, as [collectItems] keeps it. *)
Record Item : Type := mkItem {
  element : nat;          (* the DOM element, by number *)
  text : string;
  category : string;
  keywords : string
}.

(** [s.split(' ')]: the pieces between single spaces, empty ones included. *)
Fixpoint split_spaces (s : string) : list string :=
  match s with
  | EmptyString => [EmptyString]
  | String c rest =>
      if Ascii.eqb c " "%char then EmptyString :: split_spaces rest
      else
        match split_spaces rest with
        | [] => [String c EmptyString]
        | word :: words => String c word :: words
        end
  end.

Section Search.

(** [String.prototype.toLowerCase], a function of the platform. *)
Variable toLowerCase : string -> string.

(** [String.prototype.trim], a function of the platform. *)
Variable trim : string -> string.

(** What the DOM gives for one card: the text of its title and of its
    description, and its two data attributes, each empty when absent. *)
Record Card : Type := mkCard {
  card_element : nat;
  card_title : string;
  card_description : string;
  card_category : string;
  card_keywords : string
}.

Definition extractSearchText (card : Card) : string :=
  trim (toLowerCase (card_title card ++ " " ++ card_description card ++ " "
                       ++ card_category card ++ " " ++ card_keywords card)%string).

Definition collectItems (cards : list Card) : list Item :=
  map (fun card => mkItem (card_element card) (extractSearchText card)
                          (card_category card) (card_keywords card))
      cards.

(** [query.toLowerCase().split(' ').filter(term => term.length > 0)]. *)
Definition searchTerms (query : string) : list string :=
  filter (fun term => Nat.ltb 0 (String.length term)) (split_spaces (toLowerCase query)).

(** The predicate of [filterItems]: all search terms must be present. *)
Definition item_matches (caseSensitive : bool) (terms : list string) (item : Item) : bool :=
  let haystack := if caseSensitive then text item else toLowerCase (text item) in
  forallb (fun term =>
             includes term haystack
             || includes term (toLowerCase (category item))
             || includes term (toLowerCase (keywords item)))
          terms.

Definition filterItems (caseSensitive : bool) (items : list Item) (query : string)
  : list Item :=
  filter (item_matches caseSensitive (searchTerms query)) items.

End Search.

(** The characters of the class [[.*+?^${}()|[\]\\]]. *)
Definition regex_special (c : ascii) : bool :=
  existsb (Ascii.eqb c) (list_ascii_of_string ".*+?^${}()|[]\").

(** [string.replace(/[.*+?^${}()|[\]\\]/g, '\\$&')]: a backslash goes before
    every character of the class. *)
Fixpoint escapeRegex (s : string) : string :=
  match s with
  | EmptyString => EmptyString
  | String c rest =>
      if regex_special c then String "\"%char (String c (escapeRegex rest))
      else String c (escapeRegex rest)
  end.

(** A string in which every character of the class stands behind a
    backslash of its own. *)
Inductive well_escaped : string -> Prop :=
| escaped_empty : well_escaped EmptyString
| escaped_plain c s :
    regex_special c = false -> well_escaped s -> well_escaped (String c s)
| escaped_pair c s :
    regex_special c = true -> well_escaped s ->
    well_escaped (String "\"%char (String c s)).

(** A sample of the platform's lower case, for letters A-Z only. *)
Definition ascii_lower (c : ascii) : ascii :=
  let n := nat_of_ascii c in
  if Nat.leb 65 n && Nat.leb n 90 then ascii_of_nat (n + 32) else c.

Fixpoint lower_sample (s : string) : string :=
  match s with
  | EmptyString => EmptyString
  | String c rest => String (ascii_lower c) (lower_sample rest)
  end.

(** A sample of the platform's trim, for spaces only. *)
Fixpoint trim_left_sample (s : string) : string :=
  match s with
  | String c rest => if Ascii.eqb c " "%char then trim_left_sample rest else s
  | EmptyString => EmptyString
  end.

Fixpoint trim_right_sample (s : string) : string :=
  match s with
  | EmptyString => EmptyString
  | String c rest =>
      match trim_right_sample rest with
      | EmptyString => if Ascii.eqb c " "%char then EmptyString else String c EmptyString
      | kept => String c kept
      end
  end.

Definition trim_sample (s : string) : string := trim_right_sample (trim_left_sample s).

Definition sample_cards : list Card :=
  [ mkCard 0 "Captacion de Propiedades" "Guion de llamada" "captacion" "llamada guion";
    mkCard 1 "Visita a la Propiedad" "Lista de control" "visitas" "checklist";
    mkCard 2 "Cierre de Arriendo" "Documentos" "arriendo" "contrato" ].

Definition sample_items : list Item :=
  [ mkItem 0 "captacion de propiedades guion de llamada" "captacion" "llamada guion";
    mkItem 1 "visita a la propiedad lista de control" "visitas" "checklist";
    mkItem 2 "cierre de arriendo documentos" "arriendo" "contrato" ].

(* ================================================================== *)
(** ** Debounce and throttle *)

Section Timers.

(** The arguments of one call of the wrapped function. *)
Variable Args : Type.

(** What happens to a wrapper: it is called, or the timer it set expires.
    The delays [wait] and [limit] only decide when the second may happen. *)
Inductive TimerEvent : Type :=
| Called (args : Args)
| Expired.

(** The closure of [debounce]: the timer in [timeout], with the arguments
    that its callback [later] holds, and the calls of [func] made so far. *)
Record Debounced : Type := mkDebounced {
  timeout : option Args;
  debounced_calls : list Args
}.

(** [executedFunction(...args)]. *)
Definition executedFunction (immediate : bool) (args : Args) (st : Debounced)
  : Debounced :=
  let callNow := immediate && (match timeout st with None => true | Some _ => false end) in
  (* clearTimeout(timeout); timeout = setTimeout(later, wait) *)
  mkDebounced (Some args)
              (if callNow then debounced_calls st ++ [args] else debounced_calls st).

(** [later()], when the timer in [timeout] expires; a cleared timer never
    expires. *)
Definition later (immediate : bool) (st : Debounced) : Debounced :=
  match timeout st with
  | None => st
  | Some args =>
      mkDebounced None
                  (if immediate then debounced_calls st else debounced_calls st ++ [args])
  end.

Definition debounce_event (immediate : bool) (st : Debounced) (e : TimerEvent)
  : Debounced :=
  match e with
  | Called args => executedFunction immediate args st
  | Expired => later immediate st
  end.

Definition debounce_run (immediate : bool) (events : list TimerEvent) (st : Debounced)
  : Debounced :=
  fold_left (debounce_event immediate) events st.

(** The closure of [throttle]. *)
Record Throttled : Type := mkThrottled {
  inThrottle : bool;
  throttled_calls : list Args
}.

(** The function that [throttle] returns. *)
Definition throttled (args : Args) (st : Throttled) : Throttled :=
  if inThrottle st then st
  else mkThrottled true (throttled_calls st ++ [args]).

(** [() => inThrottle = false], when the timer expires; there is a timer
    only while [inThrottle] holds. *)
Definition release (st : Throttled) : Throttled :=
  mkThrottled false (throttled_calls st).

Definition throttle_event (st : Throttled) (e : TimerEvent) : Throttled :=
  match e with
  | Called args => throttled args st
  | Expired => release st
  end.

Definition throttle_run (events : list TimerEvent) (st : Throttled) : Throttled :=
  fold_left throttle_event events st.

Definition expirations (events : list TimerEvent) : nat :=
  List.length (filter (fun e => match e with Expired => true | Called _ => false end) events).

End Timers.

Arguments Called {Args} args.
Arguments Expired {Args}.
Arguments mkDebounced {Args} timeout debounced_calls.
Arguments timeout {Args} d.
Arguments debounced_calls {Args} d.
Arguments executedFunction {Args} immediate args st.
Arguments later {Args} immediate st.
Arguments debounce_event {Args} immediate st e.
Arguments debounce_run {Args} immediate events st.
Arguments mkThrottled {Args} inThrottle throttled_calls.
Arguments inThrottle {Args} t.
Arguments throttled_calls {Args} t.
Arguments throttled {Args} args st.
Arguments release {Args} st.
Arguments throttle_event {Args} st e.
Arguments throttle_run {Args} events st.
Arguments expirations {Args} events.

(** An asset that cannot be fetched with success, at any time. *)
Definition never_served (env : Env) (request : Request) : Prop :=
  forall t, match network env t request with
            | Resolved r => ok r = false
            | Rejected => True
            end.

(** The keys of a store that are not keys of critical assets. *)
Definition other_keys (env : Env) (c : Cache) : list string :=
  filter (fun k => negb (existsb (String.eqb k) (asset_keys env))) (cache_keys c).

(* ================================================================== *)
(** * Properties *)

(** ** Stores as finite maps *)

Lemma cache_lookup_app k c1 c2 :
  cache_lookup k (c1 ++ c2) =
  match cache_lookup k c1 with
  | Some r => Some r
  | None => cache_lookup k c2
  end.
Proof.
  induction c1 as [|[k' r] c1 IH]; simpl; [reflexivity|].
  destruct (k' =? k)%string; [reflexivity | exact IH].
Qed.

Lemma cache_lookup_remove k k' c :
  cache_lookup k (cache_remove k' c) =
  if (k' =? k)%string then None else cache_lookup k c.
Proof.
  unfold cache_remove.
  induction c as [|[k0 r] c IH]; simpl.
  - destruct (k' =? k)%string; reflexivity.
  - destruct (String.eqb_spec k0 k') as [->|Hne]; simpl.
    + rewrite IH. destruct (k' =? k)%string; reflexivity.
    + destruct (String.eqb_spec k0 k) as [->|Hne'].
      * destruct (String.eqb_spec k' k) as [->|_]; [congruence | reflexivity].
      * exact IH.
Qed.

Lemma cache_lookup_insert k k' r c :
  cache_lookup k (cache_insert k' r c) =
  if (k' =? k)%string then Some r else cache_lookup k c.
Proof.
  unfold cache_insert. rewrite cache_lookup_app, cache_lookup_remove. simpl.
  destruct (k' =? k)%string; [reflexivity|].
  destruct (cache_lookup k c); reflexivity.
Qed.

Lemma storage_lookup_app name s1 s2 :
  storage_lookup name (s1 ++ s2) =
  match storage_lookup name s1 with
  | Some c => Some c
  | None => storage_lookup name s2
  end.
Proof.
  induction s1 as [|[n c] s1 IH]; simpl; [reflexivity|].
  destruct (n =? name)%string; [reflexivity | exact IH].
Qed.

Lemma entries_of_ensure name n s :
  entries_of name (storage_ensure n s) = entries_of name s.
Proof.
  unfold storage_ensure.
  destruct (storage_lookup n s) eqn:Hn; [reflexivity|].
  unfold entries_of. rewrite storage_lookup_app. simpl.
  destruct (storage_lookup name s) eqn:Hs; [reflexivity|].
  destruct (n =? name)%string; reflexivity.
Qed.

Lemma storage_lookup_ensure_same n s :
  storage_lookup n (storage_ensure n s) = Some (entries_of n s).
Proof.
  unfold storage_ensure, entries_of.
  destruct (storage_lookup n s) eqn:Hn; [exact Hn|].
  rewrite storage_lookup_app, Hn. simpl. rewrite String.eqb_refl. reflexivity.
Qed.

Lemma storage_ensure_present n s c :
  storage_lookup n s = Some c -> storage_ensure n s = s.
Proof. unfold storage_ensure. intros ->. reflexivity. Qed.

Lemma storage_lookup_update name n f s :
  storage_lookup name (storage_update n f s) =
  if (n =? name)%string then option_map f (storage_lookup name s)
  else storage_lookup name s.
Proof.
  induction s as [|[n0 c] s IH]; simpl.
  - destruct (n =? name)%string; reflexivity.
  - destruct (String.eqb_spec n0 n) as [->|Hne]; simpl.
    + destruct (n =? name)%string; reflexivity.
    + destruct (String.eqb_spec n0 name) as [->|Hne'].
      * destruct (String.eqb_spec n name) as [->|_]; [congruence | reflexivity].
      * exact IH.
Qed.

Lemma entries_of_update_other name n f s :
  n <> name -> entries_of name (storage_update n f s) = entries_of name s.
Proof.
  intros Hne. unfold entries_of. rewrite storage_lookup_update.
  destruct (String.eqb_spec n name); [contradiction | reflexivity].
Qed.

Lemma entries_of_update_same n f s :
  f [] = [] -> entries_of n (storage_update n f s) = f (entries_of n s).
Proof.
  intros Hf. unfold entries_of. rewrite storage_lookup_update, String.eqb_refl.
  destruct (storage_lookup n s); simpl; [reflexivity | symmetry; exact Hf].
Qed.

Lemma entries_of_update_present n f s c :
  storage_lookup n s = Some c -> entries_of n (storage_update n f s) = f c.
Proof.
  intros Hc. unfold entries_of.
  rewrite storage_lookup_update, String.eqb_refl, Hc. reflexivity.
Qed.

(** An entry can only be found in a store that exists. *)
Lemma entry_store_exists name k w r :
  entry name k w = Some r ->
  storage_lookup name (storage w) = Some (entries_of name (storage w)).
Proof.
  unfold entry, entries_of.
  destruct (storage_lookup name (storage w)); [reflexivity | discriminate].
Qed.

(* ================================================================== *)
(** ** Effects of a computation, as a relation between worlds *)

Section Effects.

Variable R : World -> World -> Prop.
Hypothesis R_refl : forall w, R w w.
Hypothesis R_trans : forall w1 w2 w3, R w1 w2 -> R w2 w3 -> R w1 w3.

Lemma respects_ret {A} (a : A) : respects R (ret a).
Proof. intros w. apply R_refl. Qed.

Lemma respects_throw {A} (e : Error) : respects R (@throw A e).
Proof. intros w. apply R_refl. Qed.

Lemma respects_bind {A B} (m : M A) (k : A -> M B) :
  respects R m -> (forall a, respects R (k a)) -> respects R (bind m k).
Proof.
  intros Hm Hk w. unfold bind. specialize (Hm w).
  destruct (m w) as [[a|e] w']; simpl in *.
  - eapply R_trans; [exact Hm | apply Hk].
  - exact Hm.
Qed.

(** Sequencing, when the continuation needs to know what [m] returned. *)
Lemma respects_bind_returning {A B} (P : A -> Prop) (m : M A) (k : A -> M B) :
  (forall w a, fst (m w) = Ok a -> P a) ->
  respects R m -> (forall a, P a -> respects R (k a)) -> respects R (bind m k).
Proof.
  intros HP Hm Hk w. unfold bind. specialize (Hm w). specialize (HP w).
  destruct (m w) as [[a|e] w']; simpl in *.
  - eapply R_trans; [exact Hm | apply Hk, HP; reflexivity].
  - exact Hm.
Qed.

Lemma respects_try_catch {A} (m : M A) (h : Error -> M A) :
  respects R m -> (forall e, respects R (h e)) -> respects R (try_catch m h).
Proof.
  intros Hm Hh w. unfold try_catch. specialize (Hm w).
  destruct (m w) as [[a|e] w']; simpl in *.
  - exact Hm.
  - eapply R_trans; [exact Hm | apply Hh].
Qed.

Lemma respects_promise_all {A} (ms : list (M A)) :
  Forall (respects R) ms -> respects R (promise_all ms).
Proof.
  induction 1 as [|m ms Hm _ IH]; intros w; simpl; [apply R_refl|].
  specialize (Hm w). destruct (m w) as [[a|e] w1]; simpl in *.
  - specialize (IH w1). destruct (promise_all ms w1) as [[l|e] w2]; simpl in *;
      eapply R_trans; eassumption.
  - eapply R_trans; [exact Hm | apply IH].
Qed.

End Effects.

(** *** Which entries a computation may write *)

Lemma untouched_refl allowed w : untouched allowed w w.
Proof. intros name k _. reflexivity. Qed.

Lemma untouched_trans allowed w1 w2 w3 :
  untouched allowed w1 w2 -> untouched allowed w2 w3 -> untouched allowed w1 w3.
Proof.
  intros H12 H23 name k Hn. rewrite (H23 name k Hn). apply H12. exact Hn.
Qed.

Lemma untouched_weaken (P Q : string -> string -> Prop) w w' :
  (forall name k, P name k -> Q name k) -> untouched P w w' -> untouched Q w w'.
Proof. intros HPQ H name k Hn. apply H. intros HP. apply Hn, HPQ, HP. Qed.

Lemma writes_only_weaken {A} (P Q : string -> string -> Prop) (m : M A) :
  (forall name k, P name k -> Q name k) -> writes_only P m -> writes_only Q m.
Proof. intros HPQ H w. eapply untouched_weaken; [exact HPQ | apply H]. Qed.

Lemma entry_step name k e w : entry name k (step e w) = entry name k w.
Proof. reflexivity. Qed.

Lemma entry_ensure name k n e w :
  entry name k (set_storage (storage_ensure n (storage w)) (step e w)) = entry name k w.
Proof. unfold entry. simpl. rewrite entries_of_ensure. reflexivity. Qed.

Section Footprints.

Variable env : Env.
Variable allowed : string -> string -> Prop.

Lemma fetch_writes request : writes_only allowed (fetch env request).
Proof.
  intros w name k _. unfold fetch.
  destruct (network env (clock w) request); reflexivity.
Qed.

(** The handle that [caches.open] returns is the store of that name. *)
Lemma caches_open_returns n w cache :
  fst (caches_open env n w) = Ok cache -> cache = n.
Proof.
  unfold caches_open. destruct (storage_fault env (clock w)); simpl; congruence.
Qed.

Lemma caches_open_writes n : writes_only allowed (caches_open env n).
Proof.
  intros w name k _. unfold caches_open.
  destruct (storage_fault env (clock w)); simpl; [reflexivity | apply entry_ensure].
Qed.

Lemma cache_match_writes cache request :
  writes_only allowed (cache_match env cache request).
Proof.
  intros w name k _. unfold cache_match.
  destruct (storage_fault env (clock w)); reflexivity.
Qed.

Lemma cache_put_writes cache request response :
  allowed cache (key request) ->
  writes_only allowed (cache_put env cache request response).
Proof.
  intros Hal w name k Hn. unfold cache_put.
  destruct (storage_fault env (clock w)); simpl; [reflexivity|].
  unfold entry. simpl.
  destruct (String.eqb_spec cache name) as [<-|Hne].
  - unfold entries_of. rewrite storage_lookup_update, String.eqb_refl.
    destruct (storage_lookup cache (storage w)) as [c|]; simpl; [|reflexivity].
    rewrite cache_lookup_insert.
    destruct (String.eqb_spec (key request) k) as [<-|_]; [contradiction | reflexivity].
  - rewrite entries_of_update_other by exact Hne. reflexivity.
Qed.

Lemma spawn_writes t : writes_only allowed (spawn t).
Proof. destruct t. intros w name k _. reflexivity. Qed.

Lemma await_fetch_writes request : writes_only allowed (await_fetch env request).
Proof.
  intros w name k _. unfold await_fetch.
  destruct (network env (clock w) request); reflexivity.
Qed.

Lemma getCachedResponse_writes request :
  writes_only allowed (getCachedResponse env request).
Proof.
  unfold getCachedResponse, writes_only.
  apply respects_bind; [apply untouched_trans | apply caches_open_writes |].
  intros cache.
  apply respects_bind; [apply untouched_trans | apply cache_match_writes |].
  intros [hit|].
  - apply respects_ret, untouched_refl.
  - apply respects_bind; [apply untouched_trans | apply caches_open_writes |].
    intros cache'. apply cache_match_writes.
Qed.

Lemma getOfflineFallback_writes request :
  writes_only allowed (getOfflineFallback env request).
Proof.
  unfold getOfflineFallback, writes_only.
  apply respects_bind; [apply untouched_trans | |].
  - destruct (accepts "text/html" request);
      [apply getCachedResponse_writes | apply respects_ret, untouched_refl].
  - intros [hit|]; [apply respects_ret, untouched_refl|].
    destruct (accepts "image" request); [|apply respects_ret, untouched_refl].
    apply respects_bind; [apply untouched_trans | apply getCachedResponse_writes |].
    intros [hit|]; apply respects_ret, untouched_refl.
Qed.

End Footprints.

(** The routine steps of a footprint proof: sequencing, handlers, and the
    calls that write nothing. *)
Ltac footprint_step :=
  first
    [ apply respects_ret, untouched_refl
    | match goal with
      | |- respects _ (bind (caches_open ?env ?n) _) =>
          apply (respects_bind_returning _ (untouched_trans _) (fun c => c = n));
          [ apply caches_open_returns | apply caches_open_writes | intros ? -> ]
      end
    | apply respects_throw, untouched_refl
    | apply fetch_writes
    | apply await_fetch_writes
    | apply caches_open_writes
    | apply cache_match_writes
    | apply spawn_writes
    | apply getCachedResponse_writes
    | apply getOfflineFallback_writes
    | match goal with
      | |- respects _ (bind _ _) =>
          apply respects_bind; [apply untouched_trans | | intros ?]
      | |- respects _ (try_catch _ _) =>
          apply respects_try_catch; [apply untouched_trans | | intros ?]
      end ].

Ltac footprint := unfold writes_only; repeat footprint_step.

Section StrategyFootprints.

Variable env : Env.

Lemma updateCacheInBackground_writes request cache :
  writes_only (only_at cache (key request))
              (updateCacheInBackground env request cache).
Proof.
  unfold updateCacheInBackground. footprint.
  destruct (ok a); [|footprint].
  apply cache_put_writes. split; reflexivity.
Qed.

Lemma updateCacheInBackground_resumed_writes request cache :
  writes_only (only_at cache (key request))
              (updateCacheInBackground_resumed env request cache).
Proof.
  unfold updateCacheInBackground_resumed. footprint.
  destruct (ok a); [|footprint].
  apply cache_put_writes. split; reflexivity.
Qed.

Lemma cacheFirst_writes request :
  writes_only (only_at STATIC_CACHE (key request)) (cacheFirst env request).
Proof.
  unfold cacheFirst. footprint.
  destruct a as [hit|]; footprint.
  destruct (ok a); [|footprint].
  apply cache_put_writes. split; reflexivity.
Qed.

Lemma networkFirst_writes request :
  writes_only (only_at DYNAMIC_CACHE (key request)) (networkFirst env request).
Proof.
  unfold networkFirst. footprint.
  - destruct (ok a && shouldCache request); footprint.
    apply cache_put_writes. split; reflexivity.
  - destruct a as [hit|]; footprint.
Qed.

(** What [shouldCache] refuses is written nowhere. *)
Lemma networkFirst_writes_nothing request :
  shouldCache request = false ->
  writes_only nowhere (networkFirst env request).
Proof.
  intros Hno. unfold networkFirst. footprint.
  - rewrite Hno, Bool.andb_false_r. footprint.
  - destruct a as [hit|]; footprint.
Qed.

Lemma shouldCache_network_first request :
  some_test NETWORK_FIRST_PATTERNS (href (url request)) = true ->
  shouldCache request = false.
Proof. unfold shouldCache. intros ->. reflexivity. Qed.

(** A fetch event writes under the key of its request only. *)
Lemma handleFetch_writes request :
  writes_only (fun name k => k = key request /\ (name = STATIC_CACHE \/ name = DYNAMIC_CACHE))
              (handleFetch env request).
Proof.
  unfold handleFetch. footprint.
  destruct (some_test NETWORK_FIRST_PATTERNS (href (url request)));
    [| destruct (existsb (String.eqb (pathname (url request))) STATIC_ASSETS
                 || (origin (url request) =? location_origin env)%string) ].
  all: first
    [ eapply writes_only_weaken; [|apply networkFirst_writes]
    | eapply writes_only_weaken; [|apply cacheFirst_writes] ].
  all: intros name k [-> ->]; auto.
Qed.

Lemma run_task_writes t :
  writes_only (fun name k => exists request, t = BgUpdate request name /\ k = key request)
              (run_task env t).
Proof.
  destruct t as [request cache]. simpl.
  eapply writes_only_weaken; [|apply updateCacheInBackground_resumed_writes].
  intros name k [-> ->]. exists request. split; reflexivity.
Qed.

(** The detached work writes where its tasks say, and nowhere else. *)
Lemma settle_writes allowed w :
  (forall request cache, In (BgUpdate request cache) (pending w) ->
                         allowed cache (key request)) ->
  untouched allowed w (settle env w).
Proof.
  unfold settle. intros Hall.
  assert (Hstart : untouched allowed w (set_pending [] w))
    by (intros name k _; reflexivity).
  revert Hall Hstart. generalize (set_pending [] w) as acc.
  induction (pending w) as [|t ts IH]; intros acc Hall Hacc; simpl; [exact Hacc|].
  apply IH.
  - intros request cache Hin. apply Hall. right. exact Hin.
  - eapply untouched_trans; [exact Hacc|].
    eapply untouched_weaken; [|apply run_task_writes].
    intros name k [request [-> ->]]. apply Hall. left. reflexivity.
Qed.

End StrategyFootprints.

(* ================================================================== *)
(** ** The fetch listener *)

Lemma healthy_env_online : healthy env_online.
Proof. intros t. reflexivity. Qed.

Lemma healthy_env_offline : healthy env_offline.
Proof. intros t. reflexivity. Qed.

Lemma healthy_env_server_error : healthy env_server_error.
Proof. intros t. reflexivity. Qed.

(** Whatever is neither skipped by method nor by the extension scheme is
    answered by [handleFetch]. *)
Lemma onFetch_intercepts env request :
  method request = "GET" ->
  protocol (url request) <> "chrome-extension:" ->
  onFetch env request = Some (handleFetch env request).
Proof.
  intros Hm Hp. unfold onFetch. rewrite Hm. simpl.
  destruct (String.eqb_spec (protocol (url request)) "chrome-extension:");
    [contradiction | reflexivity].
Qed.

(** C10, as amended: a request whose method is not GET, or whose URL has
    the scheme [chrome-extension:], is not answered by the worker: the
    listener returns without calling [respondWith], so no strategy runs and
    nothing is cached.  Every other request, that is a GET request of any
    other scheme, http(s) or not, is handed to [handleFetch]. *)
Theorem onFetch_passes_through env request :
  (method request <> "GET" \/ protocol (url request) = "chrome-extension:" ->
   onFetch env request = None)
  /\ (method request = "GET" ->
      protocol (url request) <> "chrome-extension:" ->
      onFetch env request = Some (handleFetch env request)).
Proof.
  split.
  - intros [Hm | Hp]; unfold onFetch.
    + destruct (String.eqb_spec (method request) "GET"); [contradiction | reflexivity].
    + rewrite Hp. destruct (negb (method request =? "GET")%string); reflexivity.
  - apply onFetch_intercepts.
Qed.

Lemma onFetch_passes_through_witness :
  onFetch env_online
          (mkRequest (mkURL "chrome-extension://abcdef/content.js" "chrome-extension:"
                            "chrome-extension://abcdef" "/content.js") "GET" []) = None
  /\ onFetch env_online (mkRequest (local_url "/contact") "POST" []) = None
  /\ onFetch env_online (get_request extension_url "*/*")
     = Some (handleFetch env_online (get_request extension_url "*/*"))
  /\ onFetch env_online (get_request (local_url "/Inicio.html") "text/html")
     = Some (handleFetch env_online (get_request (local_url "/Inicio.html") "text/html")).
Proof.
  split; [|split; [|split]].
  - apply (proj1 (onFetch_passes_through env_online _)). right. reflexivity.
  - apply (proj1 (onFetch_passes_through env_online _)). left. simpl. discriminate.
  - apply (proj2 (onFetch_passes_through env_online (get_request extension_url "*/*"))).
    + reflexivity.
    + simpl. discriminate.
  - apply (proj2 (onFetch_passes_through env_online
                    (get_request (local_url "/Inicio.html") "text/html"))).
    + reflexivity.
    + simpl. discriminate.
Defined.

(** C10, as stated, fails: a GET request to another scheme that is not
    http(s) is intercepted and handed to [handleFetch]. *)
Lemma onFetch_other_scheme_intercepted :
  ~ (forall env request,
        is_http_scheme (protocol (url request)) = false ->
        onFetch env request = None).
Proof.
  intros H.
  specialize (H env_online (get_request extension_url "*/*") eq_refl).
  discriminate H.
Qed.

(* ================================================================== *)
(** ** Classification *)

Lemma classify_cases env request :
  classify env request =
  if matches_network_first request then NetworkFirst
  else if is_static_asset request || same_origin env request then CacheFirst
  else NetworkFirst.
Proof. reflexivity. Qed.

(** C5: an intercepted GET request is served by the strategy that the rule
    table gives, first match first: network-first for a URL that matches a
    network-first pattern, otherwise cache-first for a declared static asset
    or a same-origin URL, otherwise network-first; the fallback guards the
    strategy. *)
Theorem handleFetch_classifies env request m :
  onFetch env request = Some m ->
  m = try_catch (run_strategy env (classify env request) request)
                (fun _ => getOfflineFallback env request).
Proof.
  unfold onFetch.
  destruct (negb (method request =? "GET")%string); [discriminate|].
  destruct (protocol (url request) =? "chrome-extension:")%string; [discriminate|].
  intros [= <-].
  rewrite classify_cases.
  unfold handleFetch, matches_network_first, is_static_asset, same_origin.
  destruct (some_test NETWORK_FIRST_PATTERNS (href (url request))); [reflexivity|].
  destruct (existsb (String.eqb (pathname (url request))) STATIC_ASSETS
            || (origin (url request) =? location_origin env)%string); reflexivity.
Qed.

Lemma handleFetch_classifies_witness :
  classify env_online (get_request api_url "application/json") = NetworkFirst
  /\ classify env_online (get_request (local_url "/protocolos/visita") "text/html") = CacheFirst
  /\ classify env_online (get_request cdn_url "*/*") = NetworkFirst
  /\ handleFetch env_online (get_request (local_url "/api/agentes") "application/json")
     = try_catch (networkFirst env_online (get_request (local_url "/api/agentes") "application/json"))
                 (fun _ => getOfflineFallback env_online
                             (get_request (local_url "/api/agentes") "application/json")).
Proof.
  split; [reflexivity|]. split; [reflexivity|]. split; [reflexivity|].
  apply (handleFetch_classifies env_online
           (get_request (local_url "/api/agentes") "application/json")).
  reflexivity.
Defined.

(* ================================================================== *)
(** ** Running the script on a storage that does not fail *)

Arguments STATIC_CACHE : simpl never.
Arguments DYNAMIC_CACHE : simpl never.

Section Healthy.

Variable env : Env.
Hypothesis Hh : healthy env.

Lemma caches_open_healthy n w :
  caches_open env n w =
  (Ok n, set_storage (storage_ensure n (storage w)) (step (EvOpen n) w)).
Proof. unfold caches_open. rewrite Hh. reflexivity. Qed.

Lemma cache_match_healthy cache request w :
  cache_match env cache request w =
  (Ok (entry cache (key request) w), step (EvMatch cache (key request)) w).
Proof. unfold cache_match. rewrite Hh. reflexivity. Qed.

Lemma cache_put_healthy cache request response w :
  cache_put env cache request response w =
  (Ok tt,
   set_storage
     (storage_update cache (cache_insert (key request) response) (storage w))
     (step (EvPut cache (key request)) w)).
Proof. unfold cache_put. rewrite Hh. reflexivity. Qed.

Lemma getCachedResponse_healthy request w :
  fst (getCachedResponse env request w) = Ok (first_hit (key request) w).
Proof.
  unfold getCachedResponse, bind, first_hit.
  rewrite caches_open_healthy, cache_match_healthy, entry_ensure.
  destruct (entry STATIC_CACHE (key request) w) as [hit|]; [reflexivity|].
  rewrite caches_open_healthy, cache_match_healthy, entry_ensure.
  cbn [fst]. f_equal. rewrite entry_step, entry_ensure. reflexivity.
Qed.

(** On a rejected fetch, network-first answers from the stores or rethrows. *)
Lemma networkFirst_rejected request w :
  network env (clock w) request = Rejected ->
  fst (networkFirst env request w) =
  match first_hit (key request) w with
  | Some hit => Ok hit
  | None => Throw NetworkError
  end.
Proof.
  intros Hnet. unfold networkFirst, try_catch, bind at 1, fetch. rewrite Hnet.
  unfold bind.
  pose proof (getCachedResponse_healthy request (step (EvFetch (key request)) w)) as Hc.
  destruct (getCachedResponse env request (step (EvFetch (key request)) w))
    as [[found|e] w1]; simpl in Hc; [|discriminate].
  injection Hc as ->.
  change (first_hit (key request) (step (EvFetch (key request)) w))
    with (first_hit (key request) w).
  destruct (first_hit (key request) w); reflexivity.
Qed.

(** An answer of the network is what network-first returns, whatever its
    status. *)
Lemma networkFirst_resolved request w r :
  network env (clock w) request = Resolved r ->
  fst (networkFirst env request w) = Ok r.
Proof.
  intros Hnet. unfold networkFirst, try_catch, bind at 1, fetch. rewrite Hnet.
  unfold bind. destruct (ok r && shouldCache request).
  - rewrite caches_open_healthy, cache_put_healthy. reflexivity.
  - reflexivity.
Qed.

End Healthy.

(* ================================================================== *)
(** ** Network-first *)

(** C4: for a request whose URL matches a network-first pattern, an answer
    of the network is returned as it is, with no call of the cache storage
    (the only call recorded is the fetch) and the stores left as they were;
    and whatever the network does, no entry of any store is written. *)
Theorem network_first_pattern_bypasses_stores env request w :
  matches_network_first request = true ->
  (forall r, network env (clock w) request = Resolved r ->
             fst (handleFetch env request w) = Ok r
             /\ storage (snd (handleFetch env request w)) = storage w
             /\ trace (snd (handleFetch env request w))
                = trace w ++ [EvFetch (key request)])
  /\ untouched nowhere w (snd (handleFetch env request w)).
Proof.
  intros Hnf. unfold matches_network_first in Hnf. split.
  - intros r Hnet.
    unfold handleFetch, try_catch. rewrite Hnf.
    unfold networkFirst, try_catch, bind, fetch. rewrite Hnet.
    rewrite (shouldCache_network_first request Hnf), Bool.andb_false_r.
    repeat split.
  - unfold handleFetch. rewrite Hnf.
    apply respects_try_catch; [apply untouched_trans | | intros e].
    + apply networkFirst_writes_nothing, shouldCache_network_first, Hnf.
    + apply getOfflineFallback_writes.
Qed.

Lemma network_first_pattern_bypasses_stores_witness :
  fst (handleFetch env_online (get_request api_url "application/json")
                   (world_with [(STATIC_CACHE, [(href api_url, answer 200 "stale")])]))
  = Ok (answer 200 (href api_url))
  /\ storage (snd (handleFetch env_online (get_request api_url "application/json")
                     (world_with [(STATIC_CACHE, [(href api_url, answer 200 "stale")])])))
     = [(STATIC_CACHE, [(href api_url, answer 200 "stale")])]
  /\ trace (snd (handleFetch env_online (get_request api_url "application/json")
                   (world_with [(STATIC_CACHE, [(href api_url, answer 200 "stale")])])))
     = [EvFetch (href api_url)].
Proof.
  apply (network_first_pattern_bypasses_stores env_online
           (get_request api_url "application/json")
           (world_with [(STATIC_CACHE, [(href api_url, answer 200 "stale")])])).
  - reflexivity.
  - reflexivity.
Defined.

(** C7, as amended: when the fetch of a network-first request is rejected,
    the key is looked up in the static store and then in the dynamic store;
    the first hit is returned, and with no hit the rejection is thrown on, to
    the fallback when the request came through [handleFetch].  An answer that
    is not a success is no failure: it is returned as it is and no store is
    consulted. *)
Theorem networkFirst_falls_back_on_rejection env request w :
  healthy env ->
  (network env (clock w) request = Rejected ->
   fst (networkFirst env request w) =
   match entry STATIC_CACHE (key request) w with
   | Some hit => Ok hit
   | None =>
       match entry DYNAMIC_CACHE (key request) w with
       | Some hit => Ok hit
       | None => Throw NetworkError
       end
   end)
  /\ (forall e, classify env request = NetworkFirst ->
                fst (networkFirst env request w) = Throw e ->
                handleFetch env request w
                = getOfflineFallback env request (snd (networkFirst env request w)))
  /\ (forall r, network env (clock w) request = Resolved r ->
                fst (networkFirst env request w) = Ok r
                /\ trace (snd (networkFirst env request w))
                   = trace w ++ [EvFetch (key request)]
                     ++ (if ok r && shouldCache request
                         then [EvOpen DYNAMIC_CACHE; EvPut DYNAMIC_CACHE (key request)]
                         else [])).
Proof.
  intros Hh. split; [|split].
  - intros Hnet. rewrite (networkFirst_rejected env Hh request w Hnet).
    unfold first_hit.
    destruct (entry STATIC_CACHE (key request) w); [reflexivity|].
    destruct (entry DYNAMIC_CACHE (key request) w); reflexivity.
  - intros e Hclass Hthrow.
    rewrite classify_cases in Hclass.
    unfold handleFetch, try_catch.
    unfold matches_network_first, is_static_asset, same_origin in Hclass.
    destruct (some_test NETWORK_FIRST_PATTERNS (href (url request))).
    + destruct (networkFirst env request w) as [[r|e'] w1]; simpl in *;
        [discriminate | reflexivity].
    + destruct (existsb (String.eqb (pathname (url request))) STATIC_ASSETS
                || (origin (url request) =? location_origin env)%string);
        [discriminate|].
      destruct (networkFirst env request w) as [[r|e'] w1]; simpl in *;
        [discriminate | reflexivity].
  - intros r Hnet. split; [apply (networkFirst_resolved env Hh request w r Hnet)|].
    unfold networkFirst, try_catch, bind at 1, fetch. rewrite Hnet.
    unfold bind. destruct (ok r && shouldCache request).
    + rewrite (caches_open_healthy env Hh), (cache_put_healthy env Hh). simpl.
      rewrite <- !app_assoc. reflexivity.
    + reflexivity.
Qed.

Lemma networkFirst_falls_back_on_rejection_witness :
  fst (networkFirst env_offline (get_request cdn_url "*/*")
         (world_with [(STATIC_CACHE, []);
                      (DYNAMIC_CACHE, [(href cdn_url, answer 200 "chart")])]))
  = Ok (answer 200 "chart").
Proof.
  exact (proj1 (networkFirst_falls_back_on_rejection env_offline
                  (get_request cdn_url "*/*")
                  (world_with [(STATIC_CACHE, []);
                               (DYNAMIC_CACHE, [(href cdn_url, answer 200 "chart")])])
                  healthy_env_offline)
               eq_refl).
Defined.

(** C7, as stated, fails: an answer that is not a success is not treated
    as an exception; it is returned although the static store has an entry
    for the request. *)
Lemma networkFirst_error_answer_not_replaced :
  ~ (forall env request w r hit,
        healthy env ->
        network env (clock w) request = Resolved r ->
        ok r = false ->
        entry STATIC_CACHE (key request) w = Some hit ->
        fst (networkFirst env request w) = Ok hit).
Proof.
  intros H.
  specialize (H env_server_error (get_request cdn_url "*/*")
                (world_with [(STATIC_CACHE, [(href cdn_url, answer 200 "chart")])])
                (answer 500 "Internal Server Error") (answer 200 "chart")
                healthy_env_server_error eq_refl eq_refl eq_refl).
  vm_compute in H. discriminate H.
Qed.

(* ================================================================== *)
(** ** Maintenance of the dynamic store *)

Lemma distinct_sound l : distinct l = true -> NoDup l.
Proof.
  induction l as [|k rest IH]; simpl; intros H; [constructor|].
  apply Bool.andb_true_iff in H as [Hk Hrest].
  constructor; [|apply IH, Hrest].
  intros Hin. apply Bool.negb_true_iff in Hk.
  assert (existsb (String.eqb k) rest = true) as Hex; [|congruence].
  apply existsb_exists. exists k. split; [exact Hin | apply String.eqb_refl].
Qed.

Lemma cache_remove_absent k c : ~ In k (cache_keys c) -> cache_remove k c = c.
Proof.
  unfold cache_remove, cache_keys.
  induction c as [|[k' r] c IH]; simpl; intros Hn; [reflexivity|].
  destruct (String.eqb_spec k' k) as [->|_]; simpl.
  - exfalso. apply Hn. left. reflexivity.
  - f_equal. apply IH. intros Hin. apply Hn. right. exact Hin.
Qed.

Lemma cache_remove_head k r c :
  ~ In k (cache_keys c) -> cache_remove k ((k, r) :: c) = c.
Proof.
  intros Hn. unfold cache_remove. simpl. rewrite String.eqb_refl. simpl.
  apply cache_remove_absent, Hn.
Qed.

(** Deleting the first [n] keys of a store leaves the store without its
    [n] oldest entries. *)
Lemma delete_keys_oldest n c :
  NoDup (cache_keys c) -> delete_keys (firstn n (cache_keys c)) c = skipn n c.
Proof.
  revert c. induction n as [|n IH]; intros c Hnd; [reflexivity|].
  destruct c as [|[k r] c]; [reflexivity|].
  simpl in Hnd. inversion Hnd as [|? ? Hk Hrest]; subst.
  change (delete_keys (firstn (S n) (cache_keys ((k, r) :: c))) ((k, r) :: c))
    with (delete_keys (firstn n (cache_keys c)) (cache_remove k ((k, r) :: c))).
  rewrite cache_remove_head by exact Hk. apply IH, Hrest.
Qed.

(** The store keeps one entry per key when an entry is written or removed. *)
Lemma cache_keys_remove k c :
  cache_keys (cache_remove k c) = filter (fun k' => negb (k' =? k)%string) (cache_keys c).
Proof.
  unfold cache_keys, cache_remove.
  induction c as [|[k' r] c IH]; simpl; [reflexivity|].
  destruct (k' =? k)%string; simpl; [exact IH | f_equal; exact IH].
Qed.

Lemma cache_remove_NoDup k c : NoDup (cache_keys c) -> NoDup (cache_keys (cache_remove k c)).
Proof. intros H. rewrite cache_keys_remove. apply NoDup_filter, H. Qed.

Lemma cache_insert_NoDup k r c :
  NoDup (cache_keys c) -> NoDup (cache_keys (cache_insert k r c)).
Proof.
  intros H. unfold cache_insert, cache_keys. rewrite map_app. simpl.
  apply NoDup_app.
  - apply (cache_remove_NoDup k c H).
  - constructor; [intros [] | constructor].
  - intros k' Hin [<-|[]].
    change (In k (cache_keys (cache_remove k c))) in Hin.
    rewrite cache_keys_remove in Hin. apply filter_In in Hin as [_ Hneq].
    rewrite String.eqb_refl in Hneq. discriminate.
Qed.

Section Cleanup.

Variable env : Env.
Hypothesis Hh : healthy env.

Lemma cache_delete_healthy cache k w :
  snd (cache_delete env cache k w) =
  set_storage (storage_update cache (cache_remove k) (storage w))
              (step (EvDelete cache k) w)
  /\ exists b, fst (cache_delete env cache k w) = Ok b.
Proof. unfold cache_delete. rewrite Hh. simpl. eauto. Qed.

Lemma cache_keys_of_healthy cache w :
  cache_keys_of env cache w =
  (Ok (cache_keys (entries_of cache (storage w))), step (EvCacheKeys cache) w).
Proof. unfold cache_keys_of. rewrite Hh. reflexivity. Qed.

(** The awaited deletions all succeed and remove their keys from the store;
    the other stores keep their entries. *)
Lemma delete_all_healthy cache ks w :
  (exists l, fst (promise_all (map (cache_delete env cache) ks) w) = Ok l)
  /\ forall name,
      entries_of name (storage (snd (promise_all (map (cache_delete env cache) ks) w)))
      = if (cache =? name)%string
        then delete_keys ks (entries_of name (storage w))
        else entries_of name (storage w).
Proof.
  revert w. induction ks as [|k ks IH]; intros w.
  - split; [exists []; reflexivity|]. intros name. simpl.
    destruct (cache =? name)%string; reflexivity.
  - simpl map. simpl promise_all.
    destruct (cache_delete_healthy cache k w) as [Hw [b Hb]].
    destruct (cache_delete env cache k w) as [res w1]. simpl in Hw, Hb. subst res w1.
    destruct (IH (set_storage (storage_update cache (cache_remove k) (storage w))
                              (step (EvDelete cache k) w))) as [[l Hl] Hentries].
    destruct (promise_all (map (cache_delete env cache) ks) _) as [res w2].
    simpl in Hl. subst res. split; [eexists; reflexivity|].
    intros name. simpl. simpl in Hentries. rewrite Hentries.
    destruct (String.eqb_spec cache name) as [<-|Hne].
    + rewrite entries_of_update_same by reflexivity. reflexivity.
    + rewrite entries_of_update_other by exact Hne. reflexivity.
Qed.

(** What the maintenance pass leaves in each store. *)
Lemma cleanupCaches_entries w name :
  entries_of name (storage (snd (cleanupCaches env w)))
  = if (DYNAMIC_CACHE =? name)%string
       && Nat.ltb CLEANUP_CEILING
                  (List.length (cache_keys (entries_of DYNAMIC_CACHE (storage w))))
    then delete_keys
           (firstn CLEANUP_BATCH (cache_keys (entries_of DYNAMIC_CACHE (storage w))))
           (entries_of name (storage w))
    else entries_of name (storage w).
Proof.
  unfold cleanupCaches, bind at 1. rewrite caches_open_healthy by exact Hh.
  unfold bind at 1. rewrite cache_keys_of_healthy.
  cbn [storage set_storage step]. rewrite entries_of_ensure.
  destruct (Nat.ltb CLEANUP_CEILING
              (List.length (cache_keys (entries_of DYNAMIC_CACHE (storage w))))).
  - unfold bind.
    destruct (delete_all_healthy DYNAMIC_CACHE
                (firstn CLEANUP_BATCH (cache_keys (entries_of DYNAMIC_CACHE (storage w))))
                (step (EvCacheKeys DYNAMIC_CACHE)
                   (set_storage (storage_ensure DYNAMIC_CACHE (storage w))
                      (step (EvOpen DYNAMIC_CACHE) w)))) as [[l Hl] Hentries].
    specialize (Hentries name).
    destruct (promise_all _ _) as [res w2]. simpl in Hl. subst res.
    simpl. simpl in Hentries. rewrite Hentries, entries_of_ensure.
    rewrite Bool.andb_true_r. reflexivity.
  - simpl. rewrite entries_of_ensure, Bool.andb_false_r. reflexivity.
Qed.

End Cleanup.

(** C9: the maintenance pass leaves a dynamic store of at most 50 entries
    as it is; from a larger one it removes exactly the 10 entries that were
    inserted first, so that 51 entries become 41.  The order is that of
    insertion alone: a lookup does not move an entry.  The other stores are
    not touched. *)
Theorem cleanupCaches_evicts_oldest env w :
  healthy env ->
  NoDup (cache_keys (entries_of DYNAMIC_CACHE (storage w))) ->
  let before := entries_of DYNAMIC_CACHE (storage w) in
  let after := entries_of DYNAMIC_CACHE (storage (snd (cleanupCaches env w))) in
  (List.length before <= 50 -> after = before)
  /\ (50 < List.length before ->
      after = skipn 10 before /\ List.length after = List.length before - 10)
  /\ (List.length before = 51 -> List.length after = 41)
  /\ (forall name, name <> DYNAMIC_CACHE ->
                   entries_of name (storage (snd (cleanupCaches env w)))
                   = entries_of name (storage w))
  /\ (forall cache request w0,
         storage (snd (cache_match env cache request w0)) = storage w0).
Proof.
  intros Hh Hnd before after.
  assert (Hafter : after = if Nat.ltb 50 (List.length before)
                           then skipn 10 before else before).
  { subst after. rewrite (cleanupCaches_entries env Hh), String.eqb_refl.
    unfold cache_keys at 1. rewrite length_map. fold before.
    unfold CLEANUP_CEILING, CLEANUP_BATCH. simpl andb.
    destruct (Nat.ltb 50 (List.length before)); [|reflexivity].
    apply delete_keys_oldest, Hnd. }
  assert (Hlarge : 50 < List.length before ->
                   after = skipn 10 before
                   /\ List.length after = List.length before - 10).
  { intros Hlen. apply Nat.ltb_lt in Hlen. rewrite Hlen in Hafter.
    split; [exact Hafter|]. rewrite Hafter. apply length_skipn. }
  split; [|split; [exact Hlarge|split; [|split]]].
  - intros Hlen. rewrite Hafter.
    destruct (Nat.ltb_spec 50 (List.length before)); [lia | reflexivity].
  - intros Hlen. destruct Hlarge as [_ Hl]; lia.
  - intros name Hne. rewrite (cleanupCaches_entries env Hh).
    destruct (String.eqb_spec DYNAMIC_CACHE name) as [<-|_];
      [contradiction | reflexivity].
  - intros cache request w0. unfold cache_match.
    destruct (storage_fault env (clock w0)); reflexivity.
Qed.

Lemma cleanupCaches_evicts_oldest_witness :
  entries_of DYNAMIC_CACHE
    (storage (snd (cleanupCaches env_online
                     (world_with [(STATIC_CACHE, []); (DYNAMIC_CACHE, gallery 51)]))))
  = skipn 10 (gallery 51)
  /\ List.length
       (entries_of DYNAMIC_CACHE
          (storage (snd (cleanupCaches env_online
                           (world_with [(STATIC_CACHE, []); (DYNAMIC_CACHE, gallery 51)])))))
     = 41.
Proof.
  assert (Hnd : NoDup (cache_keys (gallery 51)))
    by (apply distinct_sound; vm_compute; reflexivity).
  pose proof (cleanupCaches_evicts_oldest env_online
                (world_with [(STATIC_CACHE, []); (DYNAMIC_CACHE, gallery 51)])
                healthy_env_online Hnd) as [_ [Hlarge [Hcount _]]].
  split.
  - apply Hlarge. vm_compute. lia.
  - apply Hcount. vm_compute. reflexivity.
Defined.

(* ================================================================== *)
(** ** Activation *)

Lemma delete_stores_filter names s :
  fold_left (fun acc n => storage_delete n acc) names s
  = filter (fun e => negb (existsb (String.eqb (fst e)) names)) s.
Proof.
  revert s. induction names as [|n names IH]; intros s; simpl.
  - symmetry. apply forallb_filter_id. apply forallb_forall. reflexivity.
  - rewrite IH. unfold storage_delete.
    induction s as [|[n0 c] s IHs]; simpl; [reflexivity|].
    rewrite (String.eqb_sym n0 n).
    destruct (n =? n0)%string; simpl; [exact IHs|].
    destruct (existsb (String.eqb n0) names); simpl; [exact IHs | f_equal; exact IHs].
Qed.

Section Activation.

Variable env : Env.
Hypothesis Hh : healthy env.

Lemma caches_keys_healthy w :
  caches_keys env w = (Ok (storage_names (storage w)), step EvKeys w).
Proof. unfold caches_keys. rewrite Hh. reflexivity. Qed.

Lemma delete_stores_healthy names w :
  exists l w',
    promise_all (map (caches_delete env) names) w = (Ok l, w')
    /\ storage w' = fold_left (fun acc n => storage_delete n acc) names (storage w)
    /\ claimed w' = claimed w.
Proof.
  revert w. induction names as [|n names IH]; intros w.
  - exists [], w. repeat split.
  - simpl map. simpl promise_all. unfold caches_delete at 1. rewrite Hh.
    destruct (IH (set_storage (storage_delete n (storage w)) (step (EvDeleteStore n) w)))
      as [l [w' [Hrun [Hs Hc]]]].
    rewrite Hrun. eexists. exists w'. split; [reflexivity|]. split; assumption.
Qed.

(** Activation keeps exactly the stores that are not old, with their
    entries, and claims the clients. *)
Lemma activate_healthy w :
  exists w',
    activate env w = (Ok tt, w')
    /\ storage w' = filter (fun e => negb (is_old_cache (fst e))) (storage w)
    /\ claimed w' = true.
Proof.
  unfold activate, try_catch, bind at 1. rewrite caches_keys_healthy.
  unfold bind.
  destruct (delete_stores_healthy
              (filter is_old_cache (storage_names (storage w))) (step EvKeys w))
    as [l [w' [Hrun [Hs Hc]]]].
  rewrite Hrun. eexists. split; [reflexivity|]. simpl. split; [|reflexivity].
  rewrite Hs, delete_stores_filter. apply filter_ext_in.
  intros [n c] Hin. simpl. f_equal.
  apply Bool.eq_true_iff_eq. rewrite existsb_exists. split.
  - intros [n' [Hin' Heq]]. apply String.eqb_eq in Heq. subst n'.
    apply filter_In in Hin'. apply Hin'.
  - intros Hold. exists n. split; [|apply String.eqb_refl].
    apply filter_In. split; [|exact Hold].
    unfold storage_names. apply in_map_iff. exists (n, c). split; [reflexivity | exact Hin].
Qed.

End Activation.

(** C8, as amended: activation deletes every existing store whose name has
    the prefix of the application and is neither the current static nor the
    current dynamic name, and creates none: the stores that remain are those
    that existed and are not old, with their entries, so that of the
    application at most the current static and dynamic stores remain (the
    dynamic one only if it existed already; it is created on its first
    [open]).  The clients are then claimed. *)
Theorem activate_deletes_old_stores env w :
  healthy env ->
  storage (snd (activate env w))
  = filter (fun e => negb (is_old_cache (fst e))) (storage w)
  /\ (forall name, In name (storage_names (storage (snd (activate env w))))
                   <-> In name (storage_names (storage w)) /\ is_old_cache name = false)
  /\ (forall name, In name (storage_names (storage (snd (activate env w)))) ->
                   startsWith APP_PREFIX name = true ->
                   name = STATIC_CACHE \/ name = DYNAMIC_CACHE)
  /\ claimed (snd (activate env w)) = true.
Proof.
  intros Hh. destruct (activate_healthy env Hh w) as [w' [Hrun [Hs Hc]]].
  rewrite Hrun. cbn [snd].
  assert (Hnames : forall name,
             In name (storage_names (storage w'))
             <-> In name (storage_names (storage w)) /\ is_old_cache name = false).
  { intros name. rewrite Hs. unfold storage_names. rewrite !in_map_iff. split.
    - intros [[n c] [Hn Hin]]. simpl in Hn. subst n.
      apply filter_In in Hin as [Hin Hold]. simpl in Hold.
      apply Bool.negb_true_iff in Hold. split; [|exact Hold].
      exists (name, c). split; [reflexivity | exact Hin].
    - intros [[[n c] [Hn Hin]] Hold]. simpl in Hn. subst n.
      exists (name, c). split; [reflexivity|].
      apply filter_In. split; [exact Hin|]. simpl. rewrite Hold. reflexivity. }
  split; [exact Hs | split; [exact Hnames | split; [|exact Hc]]].
  intros name Hin Hprefix. apply Hnames in Hin as [_ Hold].
  unfold is_old_cache in Hold. rewrite Hprefix in Hold. simpl in Hold.
  destruct (String.eqb_spec name STATIC_CACHE) as [Hstatic|_]; [left; exact Hstatic|].
  destruct (String.eqb_spec name DYNAMIC_CACHE) as [Hdynamic|_]; [right; exact Hdynamic|].
  discriminate Hold.
Qed.

Lemma activate_deletes_old_stores_witness :
  storage (snd (activate env_online
                  (snd (install_event env_online world_of_previous_version))))
  = filter (fun e => negb (is_old_cache (fst e)))
           (storage (snd (install_event env_online world_of_previous_version)))
  /\ storage_names
       (storage (snd (activate env_online
                        (snd (install_event env_online world_of_previous_version)))))
     = [STATIC_CACHE].
Proof.
  split.
  - apply (activate_deletes_old_stores env_online
             (snd (install_event env_online world_of_previous_version))
             healthy_env_online).
  - vm_compute. reflexivity.
Defined.

(** C8, as stated, fails: after the installation and the activation of the
    new version over the stores of the previous one, the old stores are gone
    but no current dynamic store exists; activation did not create it. *)
Lemma activate_creates_no_dynamic_store :
  ~ (forall env w name,
        healthy env ->
        startsWith APP_PREFIX name = true ->
        (In name (storage_names
                    (storage (snd (activate env (snd (install_event env w))))))
         <-> name = STATIC_CACHE \/ name = DYNAMIC_CACHE)).
Proof.
  intros H.
  destruct (H env_online world_of_previous_version DYNAMIC_CACHE
              healthy_env_online eq_refl) as [_ Hback].
  specialize (Hback (or_intror eq_refl)).
  vm_compute in Hback.
  destruct Hback as [Heq | []]. discriminate Heq.
Qed.

(* ================================================================== *)
(** ** Cache-first *)

(** The background update never throws: a rejected fetch is caught, and the
    promise of the write is dropped. *)
Lemma updateCacheInBackground_never_throws env request cache w :
  fst (updateCacheInBackground env request cache w) = Ok tt.
Proof.
  unfold updateCacheInBackground, try_catch, bind, fetch.
  destruct (network env (clock w) request) as [r|]; [|reflexivity].
  destruct (ok r); [|reflexivity].
  unfold cache_put. destruct (storage_fault env _); reflexivity.
Qed.

Section CacheFirstHit.

Variable env : Env.
Hypothesis Hh : healthy env.

(** A hit: two calls of the storage, the re-fetch issued and left behind,
    the entry returned. *)
Lemma cacheFirst_hit request w hit :
  entry STATIC_CACHE (key request) w = Some hit ->
  cacheFirst env request w =
  (Ok hit,
   add_pending (BgUpdate request STATIC_CACHE)
     (record (EvFetch (key request))
        (step (EvMatch STATIC_CACHE (key request)) (step (EvOpen STATIC_CACHE) w)))).
Proof.
  intros Hhit. unfold cacheFirst, bind.
  rewrite (caches_open_healthy env Hh), (cache_match_healthy env Hh), entry_ensure, Hhit.
  rewrite (storage_ensure_present _ _ _ (entry_store_exists _ _ _ _ Hhit)).
  reflexivity.
Qed.

(** A miss answered by the network: the answer is returned, and written to
    the static store when it is a success. *)
Lemma cacheFirst_miss request w r :
  entry STATIC_CACHE (key request) w = None ->
  network env (S (S (clock w))) request = Resolved r ->
  fst (cacheFirst env request w) = Ok r
  /\ entry STATIC_CACHE (key request) (snd (cacheFirst env request w))
     = if ok r then Some r else None.
Proof.
  intros Hmiss Hnet. unfold cacheFirst, bind.
  rewrite (caches_open_healthy env Hh), (cache_match_healthy env Hh), entry_ensure, Hmiss.
  unfold fetch. cbn [clock step set_storage]. rewrite Hnet.
  destruct (ok r).
  - rewrite (cache_put_healthy env Hh). split; [reflexivity|].
    unfold entry. cbn [snd ret storage set_storage step].
    rewrite (entries_of_update_present _ _ _ _ (storage_lookup_ensure_same _ _)).
    rewrite cache_lookup_insert, String.eqb_refl. reflexivity.
  - split; [reflexivity|]. unfold entry. cbn [snd ret storage set_storage step].
    rewrite entries_of_ensure. exact Hmiss.
Qed.

End CacheFirstHit.

(** What the background update leaves in the storage. *)
Lemma updateCacheInBackground_storage env request cache w :
  healthy env ->
  storage (snd (updateCacheInBackground env request cache w)) =
  match network env (clock w) request with
  | Resolved r =>
      if ok r
      then storage_update cache (cache_insert (key request) r) (storage w)
      else storage w
  | Rejected => storage w
  end.
Proof.
  intros Hh. unfold updateCacheInBackground, try_catch, bind, fetch.
  destruct (network env (clock w) request) as [r|]; [|reflexivity].
  destruct (ok r); [|reflexivity].
  rewrite (cache_put_healthy env Hh). reflexivity.
Qed.

Lemma updateCacheInBackground_resumed_storage env request cache w :
  healthy env ->
  storage (snd (updateCacheInBackground_resumed env request cache w)) =
  match network env (clock w) request with
  | Resolved r =>
      if ok r
      then storage_update cache (cache_insert (key request) r) (storage w)
      else storage w
  | Rejected => storage w
  end.
Proof.
  intros Hh. unfold updateCacheInBackground_resumed, try_catch, bind, await_fetch.
  destruct (network env (clock w) request) as [r|]; [|reflexivity].
  destruct (ok r); [|reflexivity].
  rewrite (cache_put_healthy env Hh). reflexivity.
Qed.

(** An awaited fetch is the call followed at once by the settling. *)
Lemma fetch_issue_await env request w :
  fetch env request w = (issue_fetch request ;;; await_fetch env request) w.
Proof.
  unfold fetch, issue_fetch, await_fetch, bind. simpl.
  destruct (network env (clock w) request); reflexivity.
Qed.

(** The background update is its call of [fetch] followed by the rest. *)
Lemma updateCacheInBackground_split env request cache w :
  updateCacheInBackground env request cache w
  = (issue_fetch request ;;; updateCacheInBackground_resumed env request cache) w.
Proof.
  unfold updateCacheInBackground, updateCacheInBackground_resumed,
    try_catch, bind, fetch, issue_fetch, await_fetch.
  simpl. destruct (network env (clock w) request) as [r|]; reflexivity.
Qed.

Lemma handleFetch_cache_first env request w :
  classify env request = CacheFirst ->
  handleFetch env request w
  = try_catch (cacheFirst env request) (fun _ => getOfflineFallback env request) w.
Proof.
  rewrite classify_cases.
  unfold handleFetch, matches_network_first, is_static_asset, same_origin.
  destruct (some_test NETWORK_FIRST_PATTERNS (href (url request))); [discriminate|].
  destruct (existsb (String.eqb (pathname (url request))) STATIC_ASSETS
            || (origin (url request) =? location_origin env)%string);
    [reflexivity | discriminate].
Qed.

(** C6: when the static store has an entry for a cache-first request, that
    entry is what the caller gets, whatever the network does afterwards: the
    re-fetch is started and left behind.  When the re-fetch is rejected the
    error goes nowhere and the storage is as before, the entry still there;
    when it is answered with a success, the entry is overwritten by the
    answer; an answer that is no success leaves the entry as well. *)
Theorem cacheFirst_hit_survives_refresh env request w hit :
  healthy env ->
  pending w = [] ->
  entry STATIC_CACHE (key request) w = Some hit ->
  let w1 := snd (cacheFirst env request w) in
  fst (cacheFirst env request w) = Ok hit
  /\ (classify env request = CacheFirst -> fst (handleFetch env request w) = Ok hit)
  /\ storage w1 = storage w
  /\ pending w1 = [BgUpdate request STATIC_CACHE]
  /\ fst (updateCacheInBackground env request STATIC_CACHE w1) = Ok tt
  /\ (network env (clock w1) request = Rejected -> storage (settle env w1) = storage w)
  /\ (forall r, network env (clock w1) request = Resolved r ->
                entry STATIC_CACHE (key request) (settle env w1)
                = Some (if ok r then r else hit)).
Proof.
  intros Hh Hpend Hhit.
  assert (Hclass : classify env request = CacheFirst ->
                   fst (handleFetch env request w) = Ok hit).
  { intros Hc. rewrite (handleFetch_cache_first env request w Hc).
    unfold try_catch. rewrite (cacheFirst_hit env Hh request w hit Hhit). reflexivity. }
  rewrite (cacheFirst_hit env Hh request w hit Hhit). cbn [fst snd].
  unfold settle. cbn [pending add_pending record step]. rewrite Hpend.
  cbn [app fold_left run_task].
  split; [reflexivity|]. split; [exact Hclass|]. split; [reflexivity|].
  split; [reflexivity|].
  split; [apply updateCacheInBackground_never_throws|].
  split.
  - intros Hnet. rewrite (updateCacheInBackground_resumed_storage env _ _ _ Hh).
    cbn [clock set_pending add_pending record step] in *. rewrite Hnet. reflexivity.
  - intros r Hnet. unfold entry.
    rewrite (updateCacheInBackground_resumed_storage env _ _ _ Hh).
    cbn [clock set_pending add_pending record step storage] in *. rewrite Hnet.
    destruct (ok r); [|exact Hhit].
    rewrite (entries_of_update_present _ _ _ _ (entry_store_exists _ _ _ _ Hhit)).
    rewrite cache_lookup_insert, String.eqb_refl. reflexivity.
Qed.

Lemma cacheFirst_hit_survives_refresh_witness :
  fst (handleFetch env_offline (get_request (local_url "/Inicio.html") "text/html")
         (world_with [(STATIC_CACHE,
                       [((sample_origin ++ "/Inicio.html")%string, answer 200 "inicio")])]))
  = Ok (answer 200 "inicio")
  /\ storage
       (settle env_offline
          (snd (cacheFirst env_offline (get_request (local_url "/Inicio.html") "text/html")
                  (world_with [(STATIC_CACHE,
                                [((sample_origin ++ "/Inicio.html")%string,
                                  answer 200 "inicio")])]))))
     = [(STATIC_CACHE, [((sample_origin ++ "/Inicio.html")%string, answer 200 "inicio")])].
Proof.
  pose proof (cacheFirst_hit_survives_refresh env_offline
                (get_request (local_url "/Inicio.html") "text/html")
                (world_with [(STATIC_CACHE,
                              [((sample_origin ++ "/Inicio.html")%string,
                                answer 200 "inicio")])])
                (answer 200 "inicio")
                healthy_env_offline eq_refl eq_refl)
    as [_ [Hserved [_ [_ [_ [Hrejected _]]]]]].
  split.
  - apply Hserved. reflexivity.
  - apply Hrejected. reflexivity.
Defined.

(* ================================================================== *)
(** ** Which work a computation leaves behind *)

Lemma started_refl P w : started P w w.
Proof. exists []. split; [symmetry; apply app_nil_r | constructor]. Qed.

Lemma started_trans P w1 w2 w3 :
  started P w1 w2 -> started P w2 w3 -> started P w1 w3.
Proof.
  intros [l1 [H1 F1]] [l2 [H2 F2]]. exists (l1 ++ l2). split.
  - rewrite H2, H1, app_assoc. reflexivity.
  - apply Forall_app. split; assumption.
Qed.

Lemma started_same_pending P w w' : pending w' = pending w -> started P w w'.
Proof. intros H. exists []. split; [rewrite app_nil_r; exact H | constructor]. Qed.

Section Tasks.

Variable env : Env.
Variable P : Task -> Prop.

Lemma fetch_starts request : respects (started P) (fetch env request).
Proof.
  intros w. apply started_same_pending. unfold fetch.
  destruct (network env (clock w) request); reflexivity.
Qed.

Lemma caches_open_starts n : respects (started P) (caches_open env n).
Proof.
  intros w. apply started_same_pending. unfold caches_open.
  destruct (storage_fault env (clock w)); reflexivity.
Qed.

Lemma cache_match_starts cache request :
  respects (started P) (cache_match env cache request).
Proof.
  intros w. apply started_same_pending. unfold cache_match.
  destruct (storage_fault env (clock w)); reflexivity.
Qed.

Lemma cache_put_starts cache request response :
  respects (started P) (cache_put env cache request response).
Proof.
  intros w. apply started_same_pending. unfold cache_put.
  destruct (storage_fault env (clock w)); reflexivity.
Qed.

Lemma spawn_starts t : P t -> respects (started P) (spawn t).
Proof.
  destruct t. intros Ht w. exists [BgUpdate request cache].
  split; [reflexivity | constructor; [exact Ht | constructor]].
Qed.

End Tasks.

Ltac tasks_step :=
  first
    [ apply respects_ret, started_refl
    | match goal with
      | |- respects _ (bind (caches_open ?env ?n) _) =>
          apply (respects_bind_returning _ (started_trans _) (fun c => c = n));
          [ apply caches_open_returns | apply caches_open_starts | intros ? -> ]
      end
    | apply respects_throw, started_refl
    | apply fetch_starts
    | apply caches_open_starts
    | apply cache_match_starts
    | apply cache_put_starts
    | match goal with
      | |- respects _ (bind _ _) =>
          apply respects_bind; [apply started_trans | | intros ?]
      | |- respects _ (try_catch _ _) =>
          apply respects_try_catch; [apply started_trans | | intros ?]
      end ].

Ltac tasks := repeat tasks_step.

Section StrategyTasks.

Variable env : Env.
Variable P : Task -> Prop.

Lemma getCachedResponse_starts request :
  respects (started P) (getCachedResponse env request).
Proof.
  unfold getCachedResponse. tasks. destruct a as [hit|]; tasks.
Qed.

Lemma getOfflineFallback_starts request :
  respects (started P) (getOfflineFallback env request).
Proof.
  unfold getOfflineFallback. tasks.
  - destruct (accepts "text/html" request); [apply getCachedResponse_starts | tasks].
  - destruct a as [hit|]; tasks.
    destruct (accepts "image" request); tasks.
    + apply getCachedResponse_starts.
    + destruct a as [hit|]; tasks.
Qed.

(** Network-first awaits all it starts. *)
Lemma networkFirst_starts request :
  respects (started P) (networkFirst env request).
Proof.
  unfold networkFirst. tasks.
  - destruct (ok a && shouldCache request); tasks.
  - apply getCachedResponse_starts.
  - destruct a as [hit|]; tasks.
Qed.

(** Cache-first leaves behind the refresh of its own request, at most. *)
Lemma cacheFirst_starts request :
  P (BgUpdate request STATIC_CACHE) ->
  respects (started P) (cacheFirst env request).
Proof.
  intros HP. unfold cacheFirst. tasks.
  destruct a as [hit|]; tasks.
  - apply spawn_starts, HP.
  - destruct (ok a); tasks.
Qed.

Lemma handleFetch_starts request :
  P (BgUpdate request STATIC_CACHE) ->
  respects (started P) (handleFetch env request).
Proof.
  intros HP. unfold handleFetch. tasks; [|apply getOfflineFallback_starts].
  destruct (some_test NETWORK_FIRST_PATTERNS (href (url request)));
    [apply networkFirst_starts|].
  destruct (existsb (String.eqb (pathname (url request))) STATIC_ASSETS
            || (origin (url request) =? location_origin env)%string);
    [apply cacheFirst_starts, HP | apply networkFirst_starts].
Qed.

End StrategyTasks.

(* ================================================================== *)
(** ** Installation *)

Lemma append_inj_l (o a b : string) : (o ++ a)%string = (o ++ b)%string -> a = b.
Proof.
  induction o as [|ch o IH]; simpl; intros H; [exact H|].
  injection H as H. apply IH, H.
Qed.

Lemma NoDup_map_injective {A B} (f : A -> B) (l : list A) :
  (forall a b, f a = f b -> a = b) -> NoDup l -> NoDup (map f l).
Proof.
  intros Hinj. induction 1 as [|a l Ha _ IH]; simpl; constructor; [|exact IH].
  intros Hin. apply in_map_iff in Hin as [b [Hb Hin]].
  apply Hinj in Hb. subst b. contradiction.
Qed.

Lemma asset_keys_NoDup env : NoDup (asset_keys env).
Proof.
  unfold asset_keys. apply NoDup_map_injective.
  - intros a b H. unfold key, new_Request in H. simpl in H.
    apply append_inj_l in H. exact H.
  - apply distinct_sound. vm_compute. reflexivity.
Qed.

(** Writing entries of fresh, distinct keys appends them in order. *)
Lemma insert_all_fresh (l : list (string * Response)) (c : Cache) :
  NoDup (map fst l) ->
  (forall k, In k (map fst l) -> ~ In k (cache_keys c)) ->
  fold_left (fun acc e => cache_insert (fst e) (snd e) acc) l c = c ++ l.
Proof.
  revert c. induction l as [|[k r] l IH]; intros c Hnd Hfresh; simpl.
  - symmetry. apply app_nil_r.
  - simpl in Hnd. inversion Hnd as [|? ? Hk Hrest]; subst.
    unfold cache_insert at 2. simpl fst. simpl snd.
    rewrite cache_remove_absent by (apply Hfresh; left; reflexivity).
    rewrite IH.
    + rewrite <- app_assoc. reflexivity.
    + exact Hrest.
    + intros k' Hin Hin'. unfold cache_keys in Hin'. rewrite map_app in Hin'.
      apply in_app_or in Hin' as [Hc | [Heq | []]].
      * apply (Hfresh k'); [right; exact Hin | exact Hc].
      * simpl in Heq. subst k'. contradiction.
Qed.

Section Install.

Variable env : Env.

(** The fetches of [addAll] write nothing and skip nothing. *)
Lemma fetch_all_pure requests w res w' :
  fetch_all env requests w = (res, w') ->
  storage w' = storage w /\ skippedWaiting w' = skippedWaiting w.
Proof.
  revert w res w'. induction requests as [|r rest IH]; intros w res w'.
  - intros [= _ <-]. split; reflexivity.
  - simpl fetch_all. unfold bind at 1, fetch.
    destruct (network env (clock w) r) as [resp|];
      [|intros [= _ <-]; split; reflexivity].
    unfold bind at 1. destruct (ok resp); [|intros [= _ <-]; split; reflexivity].
    unfold ret at 1. unfold bind.
    destruct (fetch_all env rest (step (EvFetch (key r)) w)) as [[l|e] w1] eqn:Hrest;
      intros [= _ <-]; apply IH in Hrest; exact Hrest.
Qed.

Lemma fetch_all_served paths w :
  (forall t path, In path paths ->
                  exists r, network env t (new_Request env path) = Resolved r
                            /\ ok r = true) ->
  exists l, fst (fetch_all env (map (new_Request env) paths) w) = Ok l
            /\ map fst l = map (fun path => key (new_Request env path)) paths.
Proof.
  revert w. induction paths as [|p paths IH]; intros w Hserved.
  - exists []. split; reflexivity.
  - simpl map. simpl fetch_all. unfold bind at 1, fetch.
    destruct (Hserved (clock w) p (or_introl eq_refl)) as [r [Hr Hok]].
    rewrite Hr. unfold bind at 1. rewrite Hok. unfold ret at 1. unfold bind.
    destruct (IH (step (EvFetch (key (new_Request env p))) w)) as [l [Hl Hkeys]].
    { intros t path Hin. apply Hserved. right. exact Hin. }
    destruct (fetch_all env (map (new_Request env) paths) _) as [res w1].
    simpl in Hl. subst res.
    exists ((key (new_Request env p), r) :: l). split; [reflexivity|].
    simpl. f_equal. exact Hkeys.
Qed.

(** The promise that the install handler gives to [waitUntil] never
    rejects. *)
Lemma install_never_rejects w : fst (install env w) = Ok tt.
Proof.
  unfold install, try_catch.
  destruct (bind _ _ w) as [[[]|e] w']; reflexivity.
Qed.

Lemma install_event_always_installed w : fst (install_event env w) = Installed.
Proof.
  unfold install_event. pose proof (install_never_rejects w) as H.
  destruct (install env w) as [[u|e] w']; [reflexivity | discriminate H].
Qed.

(** On a storage that works and a network that serves every asset, the
    installation fills an empty static store with the critical assets, in the
    order of the list, and skips waiting. *)
Lemma install_populates_static_store w :
  healthy env ->
  assets_served env ->
  entries_of STATIC_CACHE (storage w) = [] ->
  exists w',
    install env w = (Ok tt, w')
    /\ cache_keys (entries_of STATIC_CACHE (storage w')) = asset_keys env
    /\ skippedWaiting w' = true.
Proof.
  intros Hh Hserved Hempty.
  unfold install, try_catch, bind at 1. rewrite (caches_open_healthy env Hh).
  unfold cache_addAll, bind.
  set (w1 := set_storage (storage_ensure STATIC_CACHE (storage w))
                         (step (EvOpen STATIC_CACHE) w)).
  destruct (fetch_all_served STATIC_ASSETS w1 Hserved) as [l [Hl Hkeys]].
  destruct (fetch_all env (map (new_Request env) STATIC_ASSETS) w1) as [res w2] eqn:Hrun.
  apply fetch_all_pure in Hrun as [Hst _].
  simpl in Hl. subst res. rewrite Hh.
  eexists. split; [reflexivity|].
  cbn [skipWaiting set_skippedWaiting storage set_storage step skippedWaiting].
  split; [|reflexivity].
  rewrite Hst. unfold w1. cbn [storage set_storage step].
  rewrite (entries_of_update_present _ _ _ _ (storage_lookup_ensure_same _ _)).
  rewrite Hempty, insert_all_fresh.
  - simpl. unfold cache_keys. exact Hkeys.
  - rewrite Hkeys. apply asset_keys_NoDup.
  - intros k _ [].
Qed.

End Install.

Lemma assets_served_env_online : assets_served env_online.
Proof. intros t path _. eexists. split; reflexivity. Qed.

(* ================================================================== *)
(** ** What a fetch event writes to the static store *)

Lemma static_is_not_dynamic : STATIC_CACHE <> DYNAMIC_CACHE.
Proof. vm_compute. discriminate. Qed.

Lemma handleFetch_network_first env request :
  classify env request = NetworkFirst ->
  handleFetch env request
  = try_catch (networkFirst env request) (fun _ => getOfflineFallback env request).
Proof.
  rewrite classify_cases.
  unfold handleFetch, matches_network_first, is_static_asset, same_origin.
  destruct (some_test NETWORK_FIRST_PATTERNS (href (url request))); [reflexivity|].
  destruct (existsb (String.eqb (pathname (url request))) STATIC_ASSETS
            || (origin (url request) =? location_origin env)%string);
    [discriminate | reflexivity].
Qed.

(** A request served network-first writes to the dynamic store alone and
    leaves no work behind. *)
Lemma handleFetch_network_first_writes env request :
  classify env request = NetworkFirst ->
  writes_only (only_at DYNAMIC_CACHE (key request)) (handleFetch env request).
Proof.
  intros Hclass. rewrite (handleFetch_network_first env request Hclass).
  footprint. apply networkFirst_writes.
Qed.

Lemma handleFetch_network_first_starts env request :
  classify env request = NetworkFirst ->
  respects (started no_task) (handleFetch env request).
Proof.
  intros Hclass. rewrite (handleFetch_network_first env request Hclass).
  tasks; [apply networkFirst_starts | apply getOfflineFallback_starts].
Qed.

Lemma no_task_started w w' : started no_task w w' -> pending w' = pending w.
Proof.
  intros [l [Hl Hall]]. destruct l as [|t l].
  - rewrite Hl. apply app_nil_r.
  - inversion Hall as [|? ? []].
Qed.

(** C3, as amended: the installation fills the static store with the
    declared critical assets.  While a fetch event is handled, background
    refresh included, the static store is written under the key of the
    request alone, and by the cache-first strategy alone: every other entry
    stays as it is, a request served network-first leaves the whole static
    store as it is, and a cache-first miss that the network answers with a
    success adds the answer to the static store. *)
Theorem static_store_written_by_cache_first_only env request w :
  pending w = [] ->
  (forall w0, healthy env -> assets_served env ->
              entries_of STATIC_CACHE (storage w0) = [] ->
              cache_keys (entries_of STATIC_CACHE (storage (snd (install env w0))))
              = asset_keys env)
  /\ (forall k, k <> key request ->
                entry STATIC_CACHE k (settle env (snd (handleFetch env request w)))
                = entry STATIC_CACHE k w)
  /\ (classify env request = NetworkFirst ->
      forall k, entry STATIC_CACHE k (settle env (snd (handleFetch env request w)))
                = entry STATIC_CACHE k w)
  /\ (forall r, healthy env ->
                entry STATIC_CACHE (key request) w = None ->
                network env (S (S (clock w))) request = Resolved r ->
                ok r = true ->
                entry STATIC_CACHE (key request) (snd (cacheFirst env request w))
                = Some r).
Proof.
  intros Hpend. split; [|split; [|split]].
  - intros w0 Hh Hserved Hempty.
    destruct (install_populates_static_store env w0 Hh Hserved Hempty)
      as [w' [Hrun [Hkeys _]]].
    rewrite Hrun. exact Hkeys.
  - intros k Hk.
    set (allowed := fun name k' : string =>
                      k' = key request /\ (name = STATIC_CACHE \/ name = DYNAMIC_CACHE)).
    assert (Huntouched : untouched allowed w (settle env (snd (handleFetch env request w)))).
    { eapply untouched_trans; [apply handleFetch_writes|].
      apply settle_writes. intros request' cache Hin.
      destruct (handleFetch_starts env (eq (BgUpdate request STATIC_CACHE)) request
                  eq_refl w) as [l [Hl Hall]].
      rewrite Hl, Hpend in Hin. simpl in Hin.
      rewrite Forall_forall in Hall. specialize (Hall _ Hin).
      injection Hall as <- <-. split; [reflexivity | left; reflexivity]. }
    apply Huntouched. intros [Heq _]. contradiction.
  - intros Hclass k.
    pose proof (no_task_started _ _
                  (handleFetch_network_first_starts env request Hclass w)) as Hstarted.
    assert (Huntouched : untouched (only_at DYNAMIC_CACHE (key request)) w
                           (settle env (snd (handleFetch env request w)))).
    { eapply untouched_trans;
        [apply (handleFetch_network_first_writes env request Hclass)|].
      apply settle_writes. intros request' cache Hin.
      rewrite Hstarted, Hpend in Hin. destruct Hin. }
    apply Huntouched. intros [Heq _]. apply static_is_not_dynamic, Heq.
  - intros r Hh Hmiss Hnet Hok.
    destruct (cacheFirst_miss env Hh request w r Hmiss Hnet) as [_ Hentry].
    rewrite Hentry, Hok. reflexivity.
Qed.

Lemma static_store_written_by_cache_first_only_witness :
  cache_keys (entries_of STATIC_CACHE (storage installed_world)) = asset_keys env_online
  /\ entry STATIC_CACHE (key (new_Request env_online "/Inicio.html"))
       (settle env_online
          (snd (handleFetch env_online (get_request cdn_url "*/*") installed_world)))
     = entry STATIC_CACHE (key (new_Request env_online "/Inicio.html")) installed_world
  /\ entry STATIC_CACHE (key (get_request (local_url "/protocolos/visita.html") "text/html"))
       (snd (cacheFirst env_online
               (get_request (local_url "/protocolos/visita.html") "text/html")
               installed_world))
     = Some (answer 200 (sample_origin ++ "/protocolos/visita.html")%string).
Proof.
  split; [|split].
  - pose proof (static_store_written_by_cache_first_only env_online
                  (get_request cdn_url "*/*") fresh_world eq_refl) as [Hinstall _].
    apply (Hinstall fresh_world healthy_env_online assets_served_env_online).
    reflexivity.
  - pose proof (static_store_written_by_cache_first_only env_online
                  (get_request cdn_url "*/*") installed_world eq_refl)
      as [_ [_ [Hnetwork _]]].
    apply Hnetwork. reflexivity.
  - pose proof (static_store_written_by_cache_first_only env_online
                  (get_request (local_url "/protocolos/visita.html") "text/html")
                  installed_world eq_refl) as [_ [_ [_ Hmiss]]].
    apply (Hmiss _ healthy_env_online); reflexivity.
Defined.

(** C3, as stated, fails: a same-origin page that is not in the static
    store is fetched by cache-first and its answer is added to the static
    store, which then holds one entry more than the critical assets. *)
Lemma cacheFirst_miss_grows_static_store :
  ~ (forall env request w k,
        healthy env ->
        entry STATIC_CACHE k w = None ->
        entry STATIC_CACHE k (snd (handleFetch env request w)) = None).
Proof.
  intros H.
  specialize (H env_online
                (get_request (local_url "/protocolos/visita.html") "text/html")
                installed_world
                (sample_origin ++ "/protocolos/visita.html")%string
                healthy_env_online eq_refl).
  vm_compute in H. discriminate H.
Qed.

(* ================================================================== *)
(** ** Failures: what reaches the host and the page *)

(** Either the installation went through, or no store has lost or gained an
    entry: [addAll] writes all the assets or none. *)
Lemma install_all_or_nothing env w res w' :
  install env w = (res, w') ->
  skippedWaiting w' = true
  \/ forall name, entries_of name (storage w') = entries_of name (storage w).
Proof.
  unfold install, try_catch, bind at 1, caches_open.
  destruct (storage_fault env (clock w)).
  - intros [= _ <-]. right. reflexivity.
  - unfold cache_addAll, bind.
    destruct (fetch_all env (map (new_Request env) STATIC_ASSETS) _)
      as [[l|e] w1] eqn:Hrun; apply fetch_all_pure in Hrun as [Hst _].
    + destruct (storage_fault env (clock w1)).
      * intros [= _ <-]. right. intros name. simpl. rewrite Hst. simpl.
        apply entries_of_ensure.
      * intros [= _ <-]. left. reflexivity.
    + intros [= _ <-]. right. intros name. rewrite Hst. simpl.
      apply entries_of_ensure.
Qed.

(** C1, on the code: the install handler catches every rejection, so the
    promise given to [waitUntil] is always fulfilled and the host records the
    worker as installed whatever happened.  With one critical asset that
    cannot be fetched, [addAll] rejects, the worker is installed over a
    static store that was created and is empty, and waiting is not skipped:
    the failure is not surfaced to the host, which has nothing to retry. *)
Theorem install_failure_is_swallowed :
  (forall env w, fst (install_event env w) = Installed)
  /\ network env_asset_missing 4 (new_Request env_asset_missing "/css/base.css")
     = Rejected
  /\ fst (install env_asset_missing fresh_world) = Ok tt
  /\ fst (install_event env_asset_missing fresh_world) = Installed
  /\ storage (snd (install_event env_asset_missing fresh_world)) = [(STATIC_CACHE, [])]
  /\ skippedWaiting (snd (install_event env_asset_missing fresh_world)) = false.
Proof.
  split; [exact install_event_always_installed|].
  vm_compute. repeat split.
Qed.

Section HealthyFallback.

Variable env : Env.
Hypothesis Hh : healthy env.

(** On a storage that works, the fallback always gives a response. *)
Lemma getOfflineFallback_healthy request w :
  exists r, fst (getOfflineFallback env request w) = Ok r.
Proof.
  unfold getOfflineFallback, bind at 1.
  assert (Hpage : exists found w1,
             (if accepts "text/html" request
              then getCachedResponse env (new_Request env "/Inicio.html")
              else ret None) w = (Ok found, w1)).
  { destruct (accepts "text/html" request); [|eexists; eexists; reflexivity].
    pose proof (getCachedResponse_healthy env Hh (new_Request env "/Inicio.html") w) as Hc.
    destruct (getCachedResponse env (new_Request env "/Inicio.html") w) as [res w1].
    simpl in Hc. subst res. eexists; eexists; reflexivity. }
  destruct Hpage as [found [w1 ->]].
  destruct found as [hit|]; [eexists; reflexivity|].
  destruct (accepts "image" request); [|eexists; reflexivity].
  unfold bind.
  pose proof (getCachedResponse_healthy env Hh request w1) as Hc.
  destruct (getCachedResponse env request w1) as [res w2].
  simpl in Hc. subst res.
  destruct (first_hit (key request) w1); eexists; reflexivity.
Qed.

(** On a storage that works, [handleFetch] never rejects, whatever the
    network does. *)
Lemma handleFetch_healthy request w :
  exists r, fst (handleFetch env request w) = Ok r.
Proof.
  unfold handleFetch, try_catch.
  match goal with
  | |- context [match ?m w with _ => _ end] => destruct (m w) as [[r|e] w1]
  end.
  - exists r. reflexivity.
  - apply getOfflineFallback_healthy.
Qed.

End HealthyFallback.

(** C2, on the code: when the cache storage rejects, the strategy throws,
    [handleFetch] catches and calls the fallback, and the fallback, which
    looks for the cached home page without a guard of its own, throws in
    turn: the promise given to [respondWith] rejects and the page sees a
    failed request, not a response. *)
Theorem handleFetch_rejects_when_storage_fails :
  onFetch env_storage_down (get_request (local_url "/Inicio.html") "text/html")
  = Some (handleFetch env_storage_down (get_request (local_url "/Inicio.html") "text/html"))
  /\ fst (cacheFirst env_storage_down
            (get_request (local_url "/Inicio.html") "text/html") fresh_world)
     = Throw StorageError
  /\ fst (handleFetch env_storage_down
            (get_request (local_url "/Inicio.html") "text/html") fresh_world)
     = Throw StorageError.
Proof. vm_compute. repeat split. Qed.

(** The two offline scenarios of the specification. *)
Example offline_page_gets_503 :
  fst (handleFetch env_offline (get_request (local_url "/Inicio.html") "text/html")
         fresh_world)
  = Ok offline_response.
Proof. vm_compute. reflexivity. Qed.

Example offline_image_gets_placeholder :
  fst (handleFetch env_offline (get_request (local_url "/img/logo.png") "image/png")
         fresh_world)
  = Ok placeholder_response.
Proof. vm_compute. reflexivity. Qed.

(* ================================================================== *)
(** * Further properties of the worker *)

(** ** What every handler keeps true of the storage *)

Lemma storage_lookup_delete name n s :
  storage_lookup name (storage_delete n s) =
  if (n =? name)%string then None else storage_lookup name s.
Proof.
  unfold storage_delete. induction s as [|[n0 c] s IH]; simpl.
  - destruct (n =? name)%string; reflexivity.
  - destruct (String.eqb_spec n0 n) as [->|Hne]; simpl.
    + rewrite IH. destruct (n =? name)%string; reflexivity.
    + destruct (String.eqb_spec n0 name) as [->|_]; [|exact IH].
      destruct (String.eqb_spec n name) as [->|_]; [contradiction | reflexivity].
Qed.

Lemma storage_update_compose n (f g : Cache -> Cache) s :
  storage_update n f (storage_update n g s) = storage_update n (fun c => f (g c)) s.
Proof.
  induction s as [|[n0 c] s IH]; simpl; [reflexivity|].
  destruct (n0 =? n)%string eqn:Hn; simpl; rewrite Hn; [reflexivity | f_equal; exact IH].
Qed.

Lemma storage_update_id n s : storage_update n (fun c => c) s = s.
Proof.
  induction s as [|[n0 c] s IH]; simpl; [reflexivity|].
  destruct (n0 =? n)%string; [reflexivity | f_equal; exact IH].
Qed.

Section StorageRelations.

Variable Rs : CacheStorage -> CacheStorage -> Prop.
Hypothesis Rs_refl : forall s, Rs s s.
Hypothesis Rs_trans : forall s1 s2 s3, Rs s1 s2 -> Rs s2 s3 -> Rs s1 s3.
Hypothesis Rs_ensure : forall n s, Rs s (storage_ensure n s).
Hypothesis Rs_insert :
  forall n k r s, ok r = true -> Rs s (storage_update n (cache_insert k r) s).
Hypothesis Rs_remove : forall n k s, Rs s (storage_update n (cache_remove k) s).
Hypothesis Rs_delete : forall n s, is_old_cache n = true -> Rs s (storage_delete n s).

Variable env : Env.

Lemma on_storage_refl w : on_storage Rs w w.
Proof. apply Rs_refl. Qed.

Lemma on_storage_trans w1 w2 w3 :
  on_storage Rs w1 w2 -> on_storage Rs w2 w3 -> on_storage Rs w1 w3.
Proof. apply Rs_trans. Qed.

Lemma same_storage w w' : storage w' = storage w -> on_storage Rs w w'.
Proof. unfold on_storage. intros ->. apply Rs_refl. Qed.

Lemma fetch_keeps request : respects (on_storage Rs) (fetch env request).
Proof.
  intros w. apply same_storage. unfold fetch.
  destruct (network env (clock w) request); reflexivity.
Qed.

Lemma cache_match_keeps cache request :
  respects (on_storage Rs) (cache_match env cache request).
Proof.
  intros w. apply same_storage. unfold cache_match.
  destruct (storage_fault env (clock w)); reflexivity.
Qed.

Lemma cache_keys_of_keeps cache : respects (on_storage Rs) (cache_keys_of env cache).
Proof.
  intros w. apply same_storage. unfold cache_keys_of.
  destruct (storage_fault env (clock w)); reflexivity.
Qed.

Lemma caches_keys_keeps : respects (on_storage Rs) (caches_keys env).
Proof.
  intros w. apply same_storage. unfold caches_keys.
  destruct (storage_fault env (clock w)); reflexivity.
Qed.

Lemma spawn_keeps t : respects (on_storage Rs) (spawn t).
Proof. destruct t. intros w. apply same_storage. reflexivity. Qed.

Lemma await_fetch_keeps request : respects (on_storage Rs) (await_fetch env request).
Proof.
  intros w. apply same_storage. unfold await_fetch.
  destruct (network env (clock w) request); reflexivity.
Qed.

Lemma skipWaiting_keeps : respects (on_storage Rs) skipWaiting.
Proof. intros w. apply same_storage. reflexivity. Qed.

Lemma clients_claim_keeps : respects (on_storage Rs) clients_claim.
Proof. intros w. apply same_storage. reflexivity. Qed.

Lemma caches_open_keeps n : respects (on_storage Rs) (caches_open env n).
Proof.
  intros w. unfold caches_open, on_storage.
  destruct (storage_fault env (clock w)); simpl; [apply Rs_refl | apply Rs_ensure].
Qed.

Lemma cache_put_keeps cache request response :
  ok response = true ->
  respects (on_storage Rs) (cache_put env cache request response).
Proof.
  intros Hok w. unfold cache_put, on_storage.
  destruct (storage_fault env (clock w)); simpl; [apply Rs_refl | apply Rs_insert, Hok].
Qed.

Lemma cache_delete_keeps cache k : respects (on_storage Rs) (cache_delete env cache k).
Proof.
  intros w. unfold cache_delete, on_storage.
  destruct (storage_fault env (clock w)); simpl; [apply Rs_refl | apply Rs_remove].
Qed.

Lemma caches_delete_keeps n :
  is_old_cache n = true -> respects (on_storage Rs) (caches_delete env n).
Proof.
  intros Hold w. unfold caches_delete, on_storage.
  destruct (storage_fault env (clock w)); simpl; [apply Rs_refl | apply Rs_delete, Hold].
Qed.

Ltac keeps_step :=
  first
    [ apply respects_ret; apply on_storage_refl
    | apply respects_throw; apply on_storage_refl
    | apply fetch_keeps
    | apply await_fetch_keeps
    | apply cache_match_keeps
    | apply cache_keys_of_keeps
    | apply caches_keys_keeps
    | apply spawn_keeps
    | apply skipWaiting_keeps
    | apply clients_claim_keeps
    | apply caches_open_keeps
    | match goal with
      | |- respects _ (bind (caches_open ?e ?n) _) =>
          apply (respects_bind_returning _ on_storage_trans (fun c => c = n));
          [ apply caches_open_returns | apply caches_open_keeps | intros ? -> ]
      | |- respects _ (bind _ _) =>
          apply respects_bind; [apply on_storage_trans | | intros ?]
      | |- respects _ (try_catch _ _) =>
          apply respects_try_catch; [apply on_storage_trans | | intros ?]
      end ].

Ltac keeps := repeat keeps_step.

Lemma getCachedResponse_keeps request :
  respects (on_storage Rs) (getCachedResponse env request).
Proof. unfold getCachedResponse. keeps. destruct a as [hit|]; keeps. Qed.

Lemma getOfflineFallback_keeps request :
  respects (on_storage Rs) (getOfflineFallback env request).
Proof.
  unfold getOfflineFallback. keeps.
  - destruct (accepts "text/html" request); [apply getCachedResponse_keeps | keeps].
  - destruct a as [hit|]; keeps.
    destruct (accepts "image" request); keeps.
    + apply getCachedResponse_keeps.
    + destruct a as [hit|]; keeps.
Qed.

Lemma updateCacheInBackground_keeps request cache :
  respects (on_storage Rs) (updateCacheInBackground env request cache).
Proof.
  unfold updateCacheInBackground. keeps.
  destruct (ok a) eqn:Hok; [apply cache_put_keeps, Hok | keeps].
Qed.

Lemma updateCacheInBackground_resumed_keeps request cache :
  respects (on_storage Rs) (updateCacheInBackground_resumed env request cache).
Proof.
  unfold updateCacheInBackground_resumed. keeps.
  destruct (ok a) eqn:Hok; [apply cache_put_keeps, Hok | keeps].
Qed.

Lemma cacheFirst_keeps request : respects (on_storage Rs) (cacheFirst env request).
Proof.
  unfold cacheFirst. keeps. destruct a as [hit|]; keeps.
  destruct (ok a) eqn:Hok; [apply cache_put_keeps, Hok | keeps].
Qed.

Lemma networkFirst_keeps request : respects (on_storage Rs) (networkFirst env request).
Proof.
  unfold networkFirst. keeps.
  - destruct (ok a) eqn:Hok; simpl; [|keeps].
    destruct (shouldCache request); keeps. apply cache_put_keeps, Hok.
  - apply getCachedResponse_keeps.
  - destruct a as [hit|]; keeps.
Qed.

Lemma handleFetch_keeps request : respects (on_storage Rs) (handleFetch env request).
Proof.
  unfold handleFetch. keeps; [|apply getOfflineFallback_keeps].
  destruct (some_test NETWORK_FIRST_PATTERNS (href (url request)));
    [apply networkFirst_keeps|].
  destruct (existsb (String.eqb (pathname (url request))) STATIC_ASSETS
            || (origin (url request) =? location_origin env)%string);
    [apply cacheFirst_keeps | apply networkFirst_keeps].
Qed.

Lemma settle_keeps w : on_storage Rs w (settle env w).
Proof.
  unfold settle.
  assert (Hstart : on_storage Rs w (set_pending [] w)) by (apply same_storage; reflexivity).
  revert Hstart. generalize (set_pending [] w) as acc.
  induction (pending w) as [|[request cache] ts IH]; intros acc Hacc; simpl; [exact Hacc|].
  apply IH. eapply on_storage_trans; [exact Hacc|].
  apply updateCacheInBackground_resumed_keeps.
Qed.

Lemma cleanupCaches_keeps : respects (on_storage Rs) (cleanupCaches env).
Proof.
  unfold cleanupCaches. keeps.
  destruct (Nat.ltb CLEANUP_CEILING (List.length a)); keeps.
  apply respects_promise_all; [apply on_storage_refl | apply on_storage_trans |].
  apply Forall_forall. intros m Hin. apply in_map_iff in Hin as [k [<- _]].
  apply cache_delete_keeps.
Qed.

Lemma activate_keeps : respects (on_storage Rs) (activate env).
Proof.
  unfold activate. keeps.
  apply respects_promise_all; [apply on_storage_refl | apply on_storage_trans |].
  apply Forall_forall. intros m Hin. apply in_map_iff in Hin as [n [<- Hn]].
  apply filter_In in Hn as [_ Hold]. apply caches_delete_keeps, Hold.
Qed.

(** The fetches of [addAll] return successful answers only. *)
Lemma fetch_all_ok requests w l w' :
  fetch_all env requests w = (Ok l, w') -> Forall (fun e => ok (snd e) = true) l.
Proof.
  revert w l w'. induction requests as [|r rest IH]; intros w l w'.
  - intros [= <- _]. constructor.
  - simpl fetch_all. unfold bind at 1, fetch.
    destruct (network env (clock w) r) as [resp|]; [|discriminate].
    unfold bind at 1. destruct (ok resp) eqn:Hok; [|discriminate].
    unfold ret at 1. unfold bind.
    destruct (fetch_all env rest (step (EvFetch (key r)) w)) as [[others|e] w1] eqn:Hrest;
      [|discriminate].
    intros [= <- _]. constructor; [exact Hok | apply (IH _ _ _ Hrest)].
Qed.

Lemma insert_all_keeps n (l : list (string * Response)) s :
  Forall (fun e => ok (snd e) = true) l ->
  Rs s (storage_update n
          (fun c => fold_left (fun acc e => cache_insert (fst e) (snd e) acc) l c) s).
Proof.
  intros Hall. revert s. induction Hall as [|[k r] l Hok _ IH]; intros s.
  - simpl. rewrite storage_update_id. apply Rs_refl.
  - simpl fold_left.
    rewrite <- (storage_update_compose n
                  (fun c => fold_left (fun acc e => cache_insert (fst e) (snd e) acc) l c)
                  (cache_insert k r) s).
    eapply Rs_trans; [apply Rs_insert, Hok | apply IH].
Qed.

Lemma install_keeps : respects (on_storage Rs) (install env).
Proof.
  unfold install. keeps. unfold cache_addAll. intros w. unfold bind.
  destruct (fetch_all env (map (new_Request env) STATIC_ASSETS) w) as [[l|e] w1] eqn:Hrun.
  - pose proof (fetch_all_ok _ _ _ _ Hrun) as Hok.
    apply fetch_all_pure in Hrun as [Hst _].
    unfold on_storage. destruct (storage_fault env (clock w1)); simpl.
    + rewrite Hst. apply Rs_refl.
    + rewrite <- Hst. apply insert_all_keeps, Hok.
  - apply fetch_all_pure in Hrun as [Hst _]. apply same_storage. exact Hst.
Qed.

End StorageRelations.

(** *** Only successful answers are stored *)

Lemma kept_or_ok_refl s : kept_or_ok s s.
Proof. intros name k r H. left. exact H. Qed.

Lemma kept_or_ok_trans s1 s2 s3 :
  kept_or_ok s1 s2 -> kept_or_ok s2 s3 -> kept_or_ok s1 s3.
Proof.
  intros H12 H23 name k r H3.
  destruct (H23 _ _ _ H3) as [H2 | Hok]; [apply H12, H2 | right; exact Hok].
Qed.

Lemma kept_or_ok_ensure n s : kept_or_ok s (storage_ensure n s).
Proof.
  intros name k r H. left. unfold lookup_entry in *.
  rewrite entries_of_ensure in H. exact H.
Qed.

Lemma kept_or_ok_insert n k0 r0 s :
  ok r0 = true -> kept_or_ok s (storage_update n (cache_insert k0 r0) s).
Proof.
  intros Hok name k r. unfold lookup_entry, entries_of.
  rewrite storage_lookup_update.
  destruct (n =? name)%string; [|intros H; left; exact H].
  destruct (storage_lookup name s) as [c|]; simpl; [|discriminate].
  rewrite cache_lookup_insert.
  destruct (k0 =? k)%string; [intros [= <-]; right; exact Hok | intros H; left; exact H].
Qed.

Lemma kept_or_ok_remove n k0 s : kept_or_ok s (storage_update n (cache_remove k0) s).
Proof.
  intros name k r. unfold lookup_entry, entries_of.
  rewrite storage_lookup_update.
  destruct (n =? name)%string; [|intros H; left; exact H].
  destruct (storage_lookup name s) as [c|]; simpl; [|discriminate].
  rewrite cache_lookup_remove.
  destruct (k0 =? k)%string; [discriminate | intros H; left; exact H].
Qed.

Lemma kept_or_ok_delete n s : kept_or_ok s (storage_delete n s).
Proof.
  intros name k r. unfold lookup_entry, entries_of.
  rewrite storage_lookup_delete.
  destruct (n =? name)%string; [discriminate | intros H; left; exact H].
Qed.

(** X1: whatever the network and the storage do, the worker stores
    successful answers only: an entry that is in some store after a fetch
    event (background refresh included), an installation, an activation or a
    maintenance pass was there before, or is an answer with a status in
    200-299. *)
Theorem stores_hold_successful_answers_only env w name k r :
  (forall request,
      entry name k (settle env (snd (handleFetch env request w))) = Some r ->
      entry name k w = Some r \/ ok r = true)
  /\ (entry name k (snd (install env w)) = Some r ->
      entry name k w = Some r \/ ok r = true)
  /\ (entry name k (snd (activate env w)) = Some r ->
      entry name k w = Some r \/ ok r = true)
  /\ (entry name k (snd (cleanupCaches env w)) = Some r ->
      entry name k w = Some r \/ ok r = true).
Proof.
  split; [|split; [|split]].
  - intros request.
    apply (kept_or_ok_trans (storage w) (storage (snd (handleFetch env request w)))).
    + apply (handleFetch_keeps kept_or_ok kept_or_ok_refl kept_or_ok_trans
               kept_or_ok_ensure kept_or_ok_insert env request w).
    + apply (settle_keeps kept_or_ok kept_or_ok_refl kept_or_ok_trans
               kept_or_ok_insert env).
  - apply (install_keeps kept_or_ok kept_or_ok_refl kept_or_ok_trans
             kept_or_ok_ensure kept_or_ok_insert env w).
  - apply (activate_keeps kept_or_ok kept_or_ok_refl kept_or_ok_trans
             (fun n s _ => kept_or_ok_delete n s) env w).
  - apply (cleanupCaches_keeps kept_or_ok kept_or_ok_refl kept_or_ok_trans
             kept_or_ok_ensure kept_or_ok_remove env w).
Qed.

Lemma stores_hold_successful_answers_only_witness :
  entry STATIC_CACHE (sample_origin ++ "/protocolos/visita.html")%string fresh_world
  = Some (answer 200 (sample_origin ++ "/protocolos/visita.html")%string)
  \/ ok (answer 200 (sample_origin ++ "/protocolos/visita.html")%string) = true.
Proof.
  apply (proj1 (stores_hold_successful_answers_only env_online fresh_world
                  STATIC_CACHE (sample_origin ++ "/protocolos/visita.html")%string
                  (answer 200 (sample_origin ++ "/protocolos/visita.html")%string))
               (get_request (local_url "/protocolos/visita.html") "text/html")).
  reflexivity.
Defined.

(** *** Activation *)

Lemma keeps_current_refl s : keeps_current s s.
Proof. intros name _. reflexivity. Qed.

Lemma keeps_current_trans s1 s2 s3 :
  keeps_current s1 s2 -> keeps_current s2 s3 -> keeps_current s1 s3.
Proof. intros H12 H23 name Hn. rewrite (H23 name Hn). apply H12, Hn. Qed.

Lemma keeps_current_delete n s :
  is_old_cache n = true -> keeps_current s (storage_delete n s).
Proof.
  intros Hold name Hname. rewrite storage_lookup_delete.
  destruct (String.eqb_spec n name) as [->|_]; [congruence | reflexivity].
Qed.

Lemma activate_never_rejects env w : fst (activate env w) = Ok tt.
Proof.
  unfold activate, try_catch.
  destruct (bind _ _ w) as [[[]|e] w']; reflexivity.
Qed.

(** X3: activation never rejects, and whatever the storage does it leaves
    every store that is not old as it is: the current static and dynamic
    stores and the stores of other applications keep their entries. *)
Theorem activate_spares_current_stores env w :
  fst (activate env w) = Ok tt
  /\ (forall name, is_old_cache name = false ->
                   storage_lookup name (storage (snd (activate env w)))
                   = storage_lookup name (storage w))
  /\ entries_of STATIC_CACHE (storage (snd (activate env w)))
     = entries_of STATIC_CACHE (storage w)
  /\ entries_of DYNAMIC_CACHE (storage (snd (activate env w)))
     = entries_of DYNAMIC_CACHE (storage w).
Proof.
  pose proof (activate_keeps keeps_current keeps_current_refl keeps_current_trans
                keeps_current_delete env w) as Hkeep.
  split; [apply activate_never_rejects|]. split; [exact Hkeep|].
  unfold entries_of. split; rewrite Hkeep; reflexivity.
Qed.

Lemma activate_spares_current_stores_witness :
  storage_lookup STATIC_CACHE
    (storage (snd (activate env_storage_down installed_world)))
  = storage_lookup STATIC_CACHE (storage installed_world).
Proof.
  apply (proj1 (proj2 (activate_spares_current_stores env_storage_down installed_world))).
  reflexivity.
Defined.

(* ================================================================== *)
(** ** Network-first and the dynamic store *)

(** X4: on a storage that works, a successful answer to a request that
    [shouldCache] accepts is returned and filed in the dynamic store under
    the key of the request; when the network then rejects the same request,
    network-first answers from the stores: with the entry of the static
    store if there is one, otherwise with the answer it filed. *)
Theorem networkFirst_caches_for_offline env request w r :
  healthy env ->
  shouldCache request = true ->
  network env (clock w) request = Resolved r ->
  ok r = true ->
  fst (networkFirst env request w) = Ok r
  /\ entry DYNAMIC_CACHE (key request) (snd (networkFirst env request w)) = Some r
  /\ (network env (clock (snd (networkFirst env request w))) request = Rejected ->
      fst (networkFirst env request (snd (networkFirst env request w)))
      = Ok (match entry STATIC_CACHE (key request) w with
            | Some hit => hit
            | None => r
            end)).
Proof.
  intros Hh Hsc Hnet Hok.
  assert (Hrun : exists w1,
             networkFirst env request w = (Ok r, w1)
             /\ entry DYNAMIC_CACHE (key request) w1 = Some r
             /\ entry STATIC_CACHE (key request) w1 = entry STATIC_CACHE (key request) w).
  { unfold networkFirst, try_catch, bind at 1, fetch. rewrite Hnet, Hok, Hsc.
    cbn [andb]. unfold bind.
    rewrite (caches_open_healthy env Hh), (cache_put_healthy env Hh).
    eexists. split; [reflexivity|]. unfold entry. cbn [ret snd storage set_storage step].
    split.
    - rewrite (entries_of_update_present _ _ _ _ (storage_lookup_ensure_same _ _)).
      rewrite cache_lookup_insert, String.eqb_refl. reflexivity.
    - rewrite entries_of_update_other
        by (intros Heq; apply static_is_not_dynamic; symmetry; exact Heq).
      rewrite entries_of_ensure. reflexivity. }
  destruct Hrun as [w1 [Hrun [Hdyn Hstat]]]. rewrite Hrun. cbn [fst snd].
  split; [reflexivity|]. split; [exact Hdyn|].
  intros Hoff. rewrite (networkFirst_rejected env Hh request w1 Hoff).
  unfold first_hit. rewrite Hstat, Hdyn.
  destruct (entry STATIC_CACHE (key request) w); reflexivity.
Qed.

Lemma networkFirst_caches_for_offline_witness :
  fst (networkFirst env_online (get_request cdn_url "*/*") fresh_world)
  = Ok (answer 200 (href cdn_url))
  /\ entry DYNAMIC_CACHE (href cdn_url)
       (snd (networkFirst env_online (get_request cdn_url "*/*") fresh_world))
     = Some (answer 200 (href cdn_url)).
Proof.
  pose proof (networkFirst_caches_for_offline env_online (get_request cdn_url "*/*")
                fresh_world (answer 200 (href cdn_url))
                healthy_env_online eq_refl eq_refl eq_refl) as [Hret [Hfiled _]].
  split; [exact Hret | exact Hfiled].
Defined.

(* ================================================================== *)
(** ** The offline fallback *)

Lemma first_hit_untouched k w w' :
  untouched nowhere w w' -> first_hit k w' = first_hit k w.
Proof.
  intros H. unfold first_hit.
  rewrite (H STATIC_CACHE k), (H DYNAMIC_CACHE k) by (intros []). reflexivity.
Qed.

Section OfflineAnswer.

Variable env : Env.
Hypothesis Hh : healthy env.

(** The lookup across the stores, with the world it leaves. *)
Lemma getCachedResponse_run request w :
  exists w',
    getCachedResponse env request w = (Ok (first_hit (key request) w), w')
    /\ untouched nowhere w w'.
Proof.
  pose proof (getCachedResponse_healthy env Hh request w) as Hres.
  pose proof (getCachedResponse_writes env nowhere request w) as Hw.
  destruct (getCachedResponse env request w) as [res w'].
  simpl in Hres, Hw. subst res. exists w'. split; [reflexivity | exact Hw].
Qed.

(** The fallback, when no store has the request. *)
Lemma getOfflineFallback_answer request w0 w :
  untouched nowhere w0 w ->
  first_hit (key request) w0 = None ->
  fst (getOfflineFallback env request w) = Ok (offline_answer env request w0).
Proof.
  intros Hsame Hmiss. unfold getOfflineFallback, offline_answer, bind at 1.
  assert (Hpage : exists w1,
             (if accepts "text/html" request
              then getCachedResponse env (new_Request env "/Inicio.html")
              else ret None) w
             = (Ok (if accepts "text/html" request
                    then first_hit (key (new_Request env "/Inicio.html")) w0
                    else None), w1)
             /\ untouched nowhere w0 w1).
  { destruct (accepts "text/html" request).
    - destruct (getCachedResponse_run (new_Request env "/Inicio.html") w)
        as [w1 [Hrun Hw1]].
      exists w1. rewrite Hrun, (first_hit_untouched _ _ _ Hsame).
      split; [reflexivity | eapply untouched_trans; eassumption].
    - exists w. split; [reflexivity | exact Hsame]. }
  destruct Hpage as [w1 [-> Hw1]].
  destruct (if accepts "text/html" request
            then first_hit (key (new_Request env "/Inicio.html")) w0
            else None) as [home|]; [reflexivity|].
  destruct (accepts "image" request); [|reflexivity].
  unfold bind. destruct (getCachedResponse_run request w1) as [w2 [Hrun _]].
  rewrite Hrun, (first_hit_untouched _ _ _ Hw1), Hmiss. reflexivity.
Qed.

(** A strategy whose fetch is rejected and that finds the request in no
    store throws, and has written nothing. *)
Lemma strategy_offline_miss (s : Strategy) request w :
  (forall t, network env t request = Rejected) ->
  first_hit (key request) w = None ->
  exists e w1,
    run_strategy env s request w = (Throw e, w1) /\ untouched nowhere w w1.
Proof.
  intros Hoff Hmiss. destruct s; simpl.
  - assert (Hstatic : entry STATIC_CACHE (key request) w = None).
    { unfold first_hit in Hmiss.
      destruct (entry STATIC_CACHE (key request) w); [discriminate | reflexivity]. }
    unfold cacheFirst, bind.
    rewrite (caches_open_healthy env Hh), (cache_match_healthy env Hh), entry_ensure, Hstatic.
    unfold fetch. rewrite Hoff. eexists. eexists. split; [reflexivity|].
    intros name k _. unfold entry. cbn [storage set_storage step].
    rewrite entries_of_ensure. reflexivity.
  - pose proof (networkFirst_rejected env Hh request w (Hoff (clock w))) as Hres.
    rewrite Hmiss in Hres.
    assert (Hw : untouched nowhere w (snd (networkFirst env request w))).
    { unfold networkFirst, try_catch, bind at 1, fetch. rewrite (Hoff (clock w)).
      refine (respects_bind (untouched nowhere) (untouched_trans nowhere)
                (getCachedResponse env request)
                (fun cached => match cached with
                               | Some hit => ret hit
                               | None => throw NetworkError
                               end)
                (getCachedResponse_writes env nowhere request) _
                (step (EvFetch (key request)) w)).
      intros [hit|]; [apply respects_ret | apply respects_throw]; apply untouched_refl. }
    destruct (networkFirst env request w) as [res w1]. simpl in Hres, Hw. subst res.
    exists NetworkError, w1. split; [reflexivity | exact Hw].
Qed.

End OfflineAnswer.

(** X5: on a storage that works, when the network rejects a request that
    neither store holds, the page gets the cached home page if the request
    accepts HTML and a store has [/Inicio.html]; otherwise the placeholder
    image if the request accepts an image; otherwise the 503 response. *)
Theorem offline_uncached_request_gets_fallback env request w :
  healthy env ->
  (forall t, network env t request = Rejected) ->
  first_hit (key request) w = None ->
  fst (handleFetch env request w) = Ok (offline_answer env request w).
Proof.
  intros Hh Hoff Hmiss.
  assert (Hguard : handleFetch env request w
                   = try_catch (run_strategy env (classify env request) request)
                               (fun _ => getOfflineFallback env request) w).
  { rewrite classify_cases.
    unfold handleFetch, matches_network_first, is_static_asset, same_origin.
    destruct (some_test NETWORK_FIRST_PATTERNS (href (url request))); [reflexivity|].
    destruct (existsb (String.eqb (pathname (url request))) STATIC_ASSETS
              || (origin (url request) =? location_origin env)%string); reflexivity. }
  rewrite Hguard. unfold try_catch.
  destruct (strategy_offline_miss env Hh (classify env request) request w Hoff Hmiss)
    as [e [w1 [-> Hw1]]].
  apply (getOfflineFallback_answer env Hh request w w1 Hw1 Hmiss).
Qed.

Lemma offline_uncached_request_gets_fallback_witness :
  fst (handleFetch env_offline (get_request (local_url "/protocolos/visita.html") "text/html")
         (world_with [(STATIC_CACHE,
                       [((sample_origin ++ "/Inicio.html")%string, answer 200 "inicio")])]))
  = Ok (answer 200 "inicio").
Proof.
  apply (offline_uncached_request_gets_fallback env_offline
           (get_request (local_url "/protocolos/visita.html") "text/html")
           (world_with [(STATIC_CACHE,
                         [((sample_origin ++ "/Inicio.html")%string, answer 200 "inicio")])])
           healthy_env_offline).
  - intros t. reflexivity.
  - reflexivity.
Defined.

(** *** The fallback stays away from the network *)

Lemma called_refl P w : called P w w.
Proof. exists []. split; [symmetry; apply app_nil_r | constructor]. Qed.

Lemma called_trans P w1 w2 w3 : called P w1 w2 -> called P w2 w3 -> called P w1 w3.
Proof.
  intros [l1 [H1 F1]] [l2 [H2 F2]]. exists (l1 ++ l2). split.
  - rewrite H2, H1, app_assoc. reflexivity.
  - apply Forall_app. split; assumption.
Qed.

Lemma called_one (P : Event -> Prop) e w w' :
  P e -> trace w' = trace w ++ [e] -> called P w w'.
Proof. intros He Ht. exists [e]. split; [exact Ht | constructor; [exact He | constructor]]. Qed.

Lemma caches_open_called env n :
  respects (called is_storage_call) (caches_open env n).
Proof.
  intros w. apply (called_one _ (EvOpen n)); [exact I|].
  unfold caches_open. destruct (storage_fault env (clock w)); reflexivity.
Qed.

Lemma cache_match_called env cache request :
  respects (called is_storage_call) (cache_match env cache request).
Proof.
  intros w. apply (called_one _ (EvMatch cache (key request))); [exact I|].
  unfold cache_match. destruct (storage_fault env (clock w)); reflexivity.
Qed.

Ltac called_step :=
  first
    [ apply respects_ret; apply called_refl
    | apply caches_open_called
    | apply cache_match_called
    | match goal with
      | |- respects _ (bind _ _) =>
          apply respects_bind; [apply called_trans | | intros ?]
      end ].

Lemma getCachedResponse_called env request :
  respects (called is_storage_call) (getCachedResponse env request).
Proof.
  unfold getCachedResponse. repeat called_step.
  destruct a0 as [hit|]; repeat called_step.
Qed.

(** X6: whatever the network and the storage do, the fallback makes no
    network call (it only opens stores and looks entries up), writes no
    entry and starts no background work. *)
Theorem getOfflineFallback_is_local env request w :
  called is_storage_call w (snd (getOfflineFallback env request w))
  /\ untouched nowhere w (snd (getOfflineFallback env request w))
  /\ pending (snd (getOfflineFallback env request w)) = pending w.
Proof.
  split; [|split].
  - revert w. change (respects (called is_storage_call) (getOfflineFallback env request)).
    unfold getOfflineFallback. repeat called_step.
    + destruct (accepts "text/html" request);
        [apply getCachedResponse_called | repeat called_step].
    + destruct a as [hit|]; repeat called_step.
      destruct (accepts "image" request); repeat called_step.
      * apply getCachedResponse_called.
      * destruct a as [hit|]; repeat called_step.
  - apply getOfflineFallback_writes.
  - apply no_task_started, getOfflineFallback_starts.
Qed.

(* ================================================================== *)
(** ** Cache-first over time *)

Lemma cache_lookup_in_keys k c :
  In k (cache_keys c) -> exists r, cache_lookup k c = Some r.
Proof.
  unfold cache_keys. induction c as [|[k' r] c IH]; simpl; intros Hin; [contradiction|].
  destruct (String.eqb_spec k' k) as [_|Hne]; [exists r; reflexivity|].
  destruct Hin as [Heq | Hin]; [contradiction | apply IH, Hin].
Qed.

(** X7: after an installation that went through on an empty static store,
    a cache-first request for one of the critical assets is answered from the
    static store, with the successful answer filed at installation.  Before
    it answers, the handler opens the static store, looks the request up and
    issues the re-fetch of the background refresh, which it does not await;
    at its return that refresh is pending and the stores are as the
    installation left them. *)
Theorem installed_asset_served_from_static_store env request w path :
  healthy env ->
  assets_served env ->
  entries_of STATIC_CACHE (storage w) = [] ->
  In path STATIC_ASSETS ->
  key request = key (new_Request env path) ->
  classify env request = CacheFirst ->
  exists r,
    ok r = true
    /\ entry STATIC_CACHE (key request) (snd (install env w)) = Some r
    /\ fst (handleFetch env request (snd (install env w))) = Ok r
    /\ trace (snd (handleFetch env request (snd (install env w))))
       = trace (snd (install env w))
         ++ [EvOpen STATIC_CACHE; EvMatch STATIC_CACHE (key request);
             EvFetch (key request)]
    /\ pending (snd (handleFetch env request (snd (install env w))))
       = pending (snd (install env w)) ++ [BgUpdate request STATIC_CACHE]
    /\ storage (snd (handleFetch env request (snd (install env w))))
       = storage (snd (install env w)).
Proof.
  intros Hh Hserved Hempty Hin Hkey Hclass.
  pose proof (install_keeps kept_or_ok kept_or_ok_refl kept_or_ok_trans
                kept_or_ok_ensure kept_or_ok_insert env w) as Hkept.
  destruct (install_populates_static_store env w Hh Hserved Hempty)
    as [w1 [Hrun [Hkeys _]]].
  rewrite Hrun in *. cbn [snd] in *.
  destruct (cache_lookup_in_keys (key request) (entries_of STATIC_CACHE (storage w1)))
    as [r Hr].
  { rewrite Hkeys, Hkey. unfold asset_keys.
    apply in_map_iff. exists path. split; [reflexivity | exact Hin]. }
  exists r.
  assert (Hok : ok r = true).
  { destruct (Hkept STATIC_CACHE (key request) r Hr) as [Hold | Hok]; [|exact Hok].
    unfold lookup_entry in Hold. rewrite Hempty in Hold. discriminate Hold. }
  split; [exact Hok|]. split; [exact Hr|].
  rewrite (handleFetch_cache_first env request w1 Hclass).
  unfold try_catch. rewrite (cacheFirst_hit env Hh request w1 r Hr).
  cbn [fst snd trace storage pending add_pending record step].
  split; [reflexivity|]. split; [|split; reflexivity].
  rewrite <- !app_assoc. reflexivity.
Qed.

Lemma installed_asset_served_from_static_store_witness :
  exists r,
    ok r = true
    /\ entry STATIC_CACHE (key (get_request (local_url "/css/base.css") "text/css"))
         installed_world = Some r
    /\ fst (handleFetch env_online (get_request (local_url "/css/base.css") "text/css")
              installed_world) = Ok r.
Proof.
  destruct (installed_asset_served_from_static_store env_online
              (get_request (local_url "/css/base.css") "text/css")
              fresh_world "/css/base.css"
              healthy_env_online assets_served_env_online eq_refl)
    as [r [Hok [Hentry [Hserved _]]]].
  - simpl. tauto.
  - reflexivity.
  - reflexivity.
  - exists r. split; [exact Hok|]. split; [exact Hentry | exact Hserved].
Defined.

(** X8: stale first, fresh next: on a storage that works, a cache-first
    request found in the static store gets the stored answer; once the
    refresh started by that request has ended with a successful answer, the
    same request gets that answer. *)
Theorem refreshed_entry_served_next env request w old r :
  healthy env ->
  pending w = [] ->
  classify env request = CacheFirst ->
  entry STATIC_CACHE (key request) w = Some old ->
  network env (clock (snd (handleFetch env request w))) request = Resolved r ->
  ok r = true ->
  fst (handleFetch env request w) = Ok old
  /\ fst (handleFetch env request (settle env (snd (handleFetch env request w)))) = Ok r.
Proof.
  intros Hh Hpend Hclass Hhit.
  rewrite (handleFetch_cache_first env request w Hclass).
  unfold try_catch at 1 2 3. rewrite (cacheFirst_hit env Hh request w old Hhit).
  cbn [fst snd]. intros Hnet Hok. split; [reflexivity|].
  assert (Hfresh : entry STATIC_CACHE (key request)
                     (settle env
                        (add_pending (BgUpdate request STATIC_CACHE)
                           (record (EvFetch (key request))
                              (step (EvMatch STATIC_CACHE (key request))
                                 (step (EvOpen STATIC_CACHE) w))))) = Some r).
  { unfold settle. cbn [pending add_pending record step]. rewrite Hpend.
    cbn [app fold_left run_task]. unfold entry.
    rewrite (updateCacheInBackground_resumed_storage env _ _ _ Hh).
    cbn [clock set_pending add_pending record step storage] in *. rewrite Hnet, Hok.
    rewrite (entries_of_update_present _ _ _ _ (entry_store_exists _ _ _ _ Hhit)).
    rewrite cache_lookup_insert, String.eqb_refl. reflexivity. }
  rewrite (handleFetch_cache_first env request _ Hclass).
  unfold try_catch. rewrite (cacheFirst_hit env Hh request _ r Hfresh). reflexivity.
Qed.

Lemma refreshed_entry_served_next_witness :
  fst (handleFetch env_online (get_request (local_url "/Inicio.html") "text/html")
         (world_with [(STATIC_CACHE,
                       [((sample_origin ++ "/Inicio.html")%string, answer 200 "viejo")])]))
  = Ok (answer 200 "viejo")
  /\ fst (handleFetch env_online (get_request (local_url "/Inicio.html") "text/html")
            (settle env_online
               (snd (handleFetch env_online
                       (get_request (local_url "/Inicio.html") "text/html")
                       (world_with
                          [(STATIC_CACHE,
                            [((sample_origin ++ "/Inicio.html")%string,
                              answer 200 "viejo")])])))))
     = Ok (answer 200 (sample_origin ++ "/Inicio.html")%string).
Proof.
  apply (refreshed_entry_served_next env_online
           (get_request (local_url "/Inicio.html") "text/html")
           (world_with [(STATIC_CACHE,
                         [((sample_origin ++ "/Inicio.html")%string, answer 200 "viejo")])])
           (answer 200 "viejo") (answer 200 (sample_origin ++ "/Inicio.html")%string)
           healthy_env_online); reflexivity.
Defined.

(* ================================================================== *)
(** ** Installation over an existing store *)

Lemma filter_both {A} (p q : A -> bool) (l : list A) :
  filter (fun x => p x && q x) l = filter q (filter p l).
Proof.
  induction l as [|x l IH]; simpl; [reflexivity|].
  destruct (p x); simpl; [destruct (q x); [f_equal|]; exact IH | exact IH].
Qed.

(** Writing entries of distinct keys moves these keys to the end, in the
    order of the writes, and keeps the other keys where they were. *)
Lemma insert_all_keys (l : list (string * Response)) (c : Cache) :
  NoDup (map fst l) ->
  cache_keys (fold_left (fun acc e => cache_insert (fst e) (snd e) acc) l c)
  = filter (fun k => negb (existsb (String.eqb k) (map fst l))) (cache_keys c)
    ++ map fst l.
Proof.
  revert c. induction l as [|[k r] l IH]; intros c Hnd.
  - simpl. rewrite app_nil_r. symmetry. apply forallb_filter_id.
    apply forallb_forall. reflexivity.
  - simpl in Hnd. inversion Hnd as [|? ? Hk Hrest]; subst.
    simpl fold_left. rewrite (IH _ Hrest).
    unfold cache_insert at 1. unfold cache_keys at 1. rewrite map_app.
    change (map fst (cache_remove k c)) with (cache_keys (cache_remove k c)).
    rewrite cache_keys_remove, filter_app. simpl map.
    assert (Hfresh : existsb (String.eqb k) (map fst l) = false).
    { destruct (existsb (String.eqb k) (map fst l)) eqn:Hex; [|reflexivity].
      apply existsb_exists in Hex as [k' [Hin Heq]].
      apply String.eqb_eq in Heq. subst k'. contradiction. }
    assert (Hone : filter (fun k0 => negb (existsb (String.eqb k0) (map fst l))) [k]
                   = [k]) by (simpl; rewrite Hfresh; reflexivity).
    rewrite Hone, <- app_assoc. simpl app. f_equal.
    rewrite <- filter_both. apply filter_ext. intros k'. simpl.
    destruct (k' =? k)%string; reflexivity.
Qed.

Section InstallAgain.

Variable env : Env.

Lemma fetch_all_keys requests w l w' :
  fetch_all env requests w = (Ok l, w') -> map fst l = map key requests.
Proof.
  revert w l w'. induction requests as [|r rest IH]; intros w l w'.
  - intros [= <- _]. reflexivity.
  - simpl fetch_all. unfold bind at 1, fetch.
    destruct (network env (clock w) r) as [resp|]; [|discriminate].
    unfold bind at 1. destruct (ok resp); [|discriminate].
    unfold ret at 1. unfold bind.
    destruct (fetch_all env rest (step (EvFetch (key r)) w)) as [[others|e] w1] eqn:Hrest;
      [|discriminate].
    intros [= <- _]. simpl. f_equal. apply (IH _ _ _ Hrest).
Qed.

(** One asset that cannot be fetched makes the batch fail. *)
Lemma fetch_all_unserved requests request w :
  In request requests ->
  never_served env request ->
  exists e w', fetch_all env requests w = (Throw e, w').
Proof.
  intros Hin Hnever. revert w.
  induction requests as [|r rest IH]; intros w; [contradiction|].
  simpl fetch_all. unfold bind at 1, fetch.
  destruct (network env (clock w) r) as [resp|] eqn:Hnet;
    [|eexists; eexists; reflexivity].
  unfold bind at 1. destruct (ok resp) eqn:Hok; [|eexists; eexists; reflexivity].
  unfold ret at 1. unfold bind.
  destruct Hin as [-> | Hin].
  - specialize (Hnever (clock w)). rewrite Hnet in Hnever. congruence.
  - destruct (IH Hin (step (EvFetch (key r)) w)) as [e [w' ->]].
    eexists; eexists; reflexivity.
Qed.

End InstallAgain.

Lemma filter_out_all (l sub : list string) :
  (forall k, In k sub -> In k l) ->
  filter (fun k => negb (existsb (String.eqb k) l)) sub = [].
Proof.
  induction sub as [|k sub IH]; intros Hall; simpl; [reflexivity|].
  assert (Hex : existsb (String.eqb k) l = true).
  { apply existsb_exists. exists k. split; [apply Hall; left; reflexivity|].
    apply String.eqb_refl. }
  rewrite Hex. simpl. apply IH. intros k' Hk'. apply Hall. right. exact Hk'.
Qed.

(** X9: on a storage that works and a network that serves every critical
    asset, an installation over a static store of any content leaves in it
    the keys it had that are not keys of assets, followed by the keys of the
    assets in the order of the list: every asset is stored, once, and a
    second installation leaves the same keys as the first. *)
Theorem install_refreshes_assets env w :
  healthy env ->
  assets_served env ->
  cache_keys (entries_of STATIC_CACHE (storage (snd (install env w))))
  = other_keys env (entries_of STATIC_CACHE (storage w)) ++ asset_keys env
  /\ cache_keys (entries_of STATIC_CACHE
                   (storage (snd (install env (snd (install env w))))))
     = cache_keys (entries_of STATIC_CACHE (storage (snd (install env w)))).
Proof.
  intros Hh Hserved.
  assert (Hone : forall w0,
             cache_keys (entries_of STATIC_CACHE (storage (snd (install env w0))))
             = other_keys env (entries_of STATIC_CACHE (storage w0)) ++ asset_keys env).
  { intros w0. unfold install, try_catch, bind at 1.
    rewrite (caches_open_healthy env Hh). unfold cache_addAll, bind.
    set (w1 := set_storage (storage_ensure STATIC_CACHE (storage w0))
                           (step (EvOpen STATIC_CACHE) w0)).
    destruct (fetch_all_served env STATIC_ASSETS w1 Hserved) as [l [Hl _]].
    destruct (fetch_all env (map (new_Request env) STATIC_ASSETS) w1)
      as [res w2] eqn:Hrun.
    simpl in Hl. subst res.
    pose proof (fetch_all_keys env _ _ _ _ Hrun) as Hkeys.
    rewrite map_map in Hkeys. fold (asset_keys env) in Hkeys.
    apply fetch_all_pure in Hrun as [Hst _].
    rewrite Hh. cbn [snd skipWaiting set_skippedWaiting storage set_storage step].
    rewrite Hst. unfold w1. cbn [storage set_storage step].
    rewrite (entries_of_update_present _ _ _ _ (storage_lookup_ensure_same _ _)).
    rewrite insert_all_keys by (rewrite Hkeys; apply asset_keys_NoDup).
    rewrite Hkeys. reflexivity. }
  split; [apply Hone|].
  rewrite (Hone (snd (install env w))), (Hone w). f_equal.
  unfold other_keys at 1. rewrite (Hone w), filter_app.
  unfold other_keys. rewrite <- filter_both.
  pose proof (filter_out_all (asset_keys env) (asset_keys env) (fun k H => H))
    as Hassets.
  rewrite Hassets, app_nil_r. apply filter_ext. intros k.
  destruct (existsb (String.eqb k) (asset_keys env)); reflexivity.
Qed.

Lemma install_refreshes_assets_witness :
  cache_keys (entries_of STATIC_CACHE
                (storage (snd (install env_online
                                 (world_with
                                    [(STATIC_CACHE,
                                      [((sample_origin ++ "/protocolos/visita.html")%string,
                                        answer 200 "visita");
                                       ((sample_origin ++ "/Inicio.html")%string,
                                        answer 200 "viejo")])])))))
  = (sample_origin ++ "/protocolos/visita.html")%string :: asset_keys env_online.
Proof.
  apply (install_refreshes_assets env_online
           (world_with
              [(STATIC_CACHE,
                [((sample_origin ++ "/protocolos/visita.html")%string, answer 200 "visita");
                 ((sample_origin ++ "/Inicio.html")%string, answer 200 "viejo")])])
           healthy_env_online assets_served_env_online).
Defined.

(** X10: when one critical asset cannot be fetched with success (its fetch
    is rejected, or answered with a status outside 200-299), the installation
    writes nothing: whatever else the network and the storage do, every store
    keeps its entries and the worker does not skip waiting. *)
Theorem install_with_missing_asset_writes_nothing env w path :
  In path STATIC_ASSETS ->
  never_served env (new_Request env path) ->
  (forall name, entries_of name (storage (snd (install env w)))
                = entries_of name (storage w))
  /\ skippedWaiting (snd (install env w)) = skippedWaiting w.
Proof.
  intros Hin Hnever.
  assert (Hrun : exists res w',
             install env w = (res, w')
             /\ (forall name, entries_of name (storage w') = entries_of name (storage w))
             /\ skippedWaiting w' = skippedWaiting w).
  { unfold install, try_catch, bind at 1, caches_open.
    destruct (storage_fault env (clock w));
      [eexists; eexists; split; [reflexivity | split; reflexivity]|].
    unfold cache_addAll, bind.
    destruct (fetch_all_unserved env (map (new_Request env) STATIC_ASSETS)
                (new_Request env path)
                (set_storage (storage_ensure STATIC_CACHE (storage w))
                             (step (EvOpen STATIC_CACHE) w))
                (in_map _ _ _ Hin) Hnever) as [e [w' Hfetch]].
    rewrite Hfetch. apply fetch_all_pure in Hfetch as [Hst Hskip].
    eexists; eexists. split; [reflexivity|]. cbn [ret snd]. split.
    - intros name. rewrite Hst. simpl. apply entries_of_ensure.
    - rewrite Hskip. reflexivity. }
  destruct Hrun as [res [w' [-> [Hentries Hskip]]]].
  split; [exact Hentries | exact Hskip].
Qed.

Lemma install_with_missing_asset_writes_nothing_witness :
  entries_of STATIC_CACHE
    (storage (snd (install env_asset_missing world_of_previous_version))) = []
  /\ skippedWaiting (snd (install env_asset_missing world_of_previous_version)) = false.
Proof.
  destruct (install_with_missing_asset_writes_nothing env_asset_missing
              world_of_previous_version "/css/base.css") as [Hentries Hskip].
  - simpl. tauto.
  - intros t. exact I.
  - split; [apply (Hentries STATIC_CACHE) | exact Hskip].
Defined.

(* ================================================================== *)
(** * The search of the card grid *)

Lemma split_spaces_nonempty s : split_spaces s <> [].
Proof.
  destruct s as [|c rest]; simpl; [discriminate|].
  destruct (Ascii.eqb c " "%char); [discriminate|].
  destruct (split_spaces rest); discriminate.
Qed.

(** Splitting two texts joined by a space gives the pieces of both. *)
Lemma split_spaces_join a b :
  split_spaces (a ++ " " ++ b)%string = split_spaces a ++ split_spaces b.
Proof.
  induction a as [|c a IH]; [reflexivity|].
  simpl. simpl in IH. rewrite IH.
  destruct (Ascii.eqb c " "%char); [reflexivity|].
  destruct (split_spaces a) as [|word words] eqn:Ha; [|reflexivity].
  exfalso. apply (split_spaces_nonempty a Ha).
Qed.

Lemma split_spaces_blank n :
  filter (fun term => Nat.ltb 0 (String.length term)) (split_spaces (spaces n)) = [].
Proof. induction n as [|n IH]; [reflexivity | exact IH]. Qed.

Section SearchProperties.

Variable toLowerCase : string -> string.

Lemma item_matches_app caseSensitive terms1 terms2 item :
  item_matches toLowerCase caseSensitive (terms1 ++ terms2) item
  = item_matches toLowerCase caseSensitive terms1 item
    && item_matches toLowerCase caseSensitive terms2 item.
Proof. unfold item_matches. apply forallb_app. Qed.

(** X11: a query of two parts joined by a space finds the items that both
    parts find: it gives the result of the first part narrowed by the second,
    in the order of the items.  (The platform's lower case is asked to treat
    the joined query part by part.) *)
Theorem filterItems_words_narrow caseSensitive items q1 q2 :
  toLowerCase (q1 ++ " " ++ q2)%string
  = (toLowerCase q1 ++ " " ++ toLowerCase q2)%string ->
  filterItems toLowerCase caseSensitive items (q1 ++ " " ++ q2)%string
  = filterItems toLowerCase caseSensitive
      (filterItems toLowerCase caseSensitive items q1) q2
  /\ (forall item,
         In item (filterItems toLowerCase caseSensitive items (q1 ++ " " ++ q2)%string)
         <-> In item (filterItems toLowerCase caseSensitive items q1)
             /\ In item (filterItems toLowerCase caseSensitive items q2)).
Proof.
  intros Hjoin.
  assert (Hterms : searchTerms toLowerCase (q1 ++ " " ++ q2)%string
                   = searchTerms toLowerCase q1 ++ searchTerms toLowerCase q2).
  { unfold searchTerms. rewrite Hjoin, split_spaces_join. apply filter_app. }
  assert (Hnarrow : filterItems toLowerCase caseSensitive items (q1 ++ " " ++ q2)%string
                    = filterItems toLowerCase caseSensitive
                        (filterItems toLowerCase caseSensitive items q1) q2).
  { unfold filterItems. rewrite Hterms, <- filter_both.
    apply filter_ext. intros item. apply item_matches_app. }
  split; [exact Hnarrow|].
  intros item. rewrite Hnarrow. unfold filterItems. rewrite !filter_In. tauto.
Qed.

(** X12: a query that is empty or made of spaces alone finds every item. *)
Theorem filterItems_blank_query caseSensitive items query n :
  toLowerCase query = spaces n ->
  filterItems toLowerCase caseSensitive items query = items.
Proof.
  intros Hblank. unfold filterItems, searchTerms. rewrite Hblank, split_spaces_blank.
  apply forallb_filter_id. apply forallb_forall. reflexivity.
Qed.

(** X13: the option [caseSensitive] changes nothing for the items that
    [collectItems] builds: their text is in lower case already, and the
    terms of the query are put in lower case in both modes.  (The platform
    is asked that lower case leaves a trimmed lower-case text as it is.) *)
Theorem filterItems_caseSensitive_no_effect (trim : string -> string) cards query :
  (forall s, toLowerCase (trim (toLowerCase s)) = trim (toLowerCase s)) ->
  filterItems toLowerCase true (collectItems toLowerCase trim cards) query
  = filterItems toLowerCase false (collectItems toLowerCase trim cards) query.
Proof.
  intros Hlower. unfold filterItems. apply filter_ext_in.
  intros item Hin. unfold collectItems in Hin.
  apply in_map_iff in Hin as [card [<- _]].
  unfold item_matches. simpl. unfold extractSearchText. rewrite Hlower. reflexivity.
Qed.

End SearchProperties.

(** The sample lower case and trim behave as the platform's. *)
Lemma ascii_lower_space c :
  Ascii.eqb (ascii_lower c) " "%char = Ascii.eqb c " "%char.
Proof. destruct c as [[] [] [] [] [] [] [] []]; reflexivity. Qed.

Lemma ascii_lower_idempotent c : ascii_lower (ascii_lower c) = ascii_lower c.
Proof. destruct c as [[] [] [] [] [] [] [] []]; reflexivity. Qed.

Lemma lower_sample_idempotent s : lower_sample (lower_sample s) = lower_sample s.
Proof.
  induction s as [|c s IH]; simpl; [reflexivity|].
  rewrite ascii_lower_idempotent, IH. reflexivity.
Qed.

Lemma lower_sample_app a b :
  lower_sample (a ++ b)%string = (lower_sample a ++ lower_sample b)%string.
Proof. induction a as [|c a IH]; simpl; [reflexivity | rewrite IH; reflexivity]. Qed.

Lemma lower_sample_trim_left s :
  lower_sample (trim_left_sample s) = trim_left_sample (lower_sample s).
Proof.
  induction s as [|c s IH]; simpl; [reflexivity|].
  rewrite ascii_lower_space. destruct (Ascii.eqb c " "%char); [exact IH | reflexivity].
Qed.

Lemma lower_sample_trim_right s :
  lower_sample (trim_right_sample s) = trim_right_sample (lower_sample s).
Proof.
  induction s as [|c s IH]; simpl; [reflexivity|].
  rewrite <- IH, ascii_lower_space.
  destruct (trim_right_sample s) as [|d kept]; simpl; [|reflexivity].
  destruct (Ascii.eqb c " "%char); reflexivity.
Qed.

Lemma lower_sample_trim s :
  lower_sample (trim_sample (lower_sample s)) = trim_sample (lower_sample s).
Proof.
  unfold trim_sample.
  rewrite lower_sample_trim_right, lower_sample_trim_left, lower_sample_idempotent.
  reflexivity.
Qed.

Lemma filterItems_words_narrow_witness :
  filterItems lower_sample false sample_items ("Guion" ++ " " ++ "LLAMADA")%string
  = filterItems lower_sample false (filterItems lower_sample false sample_items "Guion")
      "LLAMADA".
Proof.
  apply (proj1 (filterItems_words_narrow lower_sample false sample_items
                  "Guion" "LLAMADA" eq_refl)).
Defined.

Lemma filterItems_blank_query_witness :
  filterItems lower_sample false sample_items "   " = sample_items.
Proof.
  apply (filterItems_blank_query lower_sample false sample_items "   " 3).
  reflexivity.
Defined.

Lemma filterItems_caseSensitive_no_effect_witness :
  filterItems lower_sample true (collectItems lower_sample trim_sample sample_cards)
              "Arriendo"
  = filterItems lower_sample false (collectItems lower_sample trim_sample sample_cards)
                "Arriendo".
Proof.
  apply (filterItems_caseSensitive_no_effect lower_sample trim_sample sample_cards
           "Arriendo").
  exact lower_sample_trim.
Defined.

(** *** Escaping a search term *)

Lemma escapeRegex_injective s s' : escapeRegex s = escapeRegex s' -> s = s'.
Proof.
  revert s'. induction s as [|c s IH]; intros [|c' s']; simpl.
  - reflexivity.
  - destruct (regex_special c'); discriminate.
  - destruct (regex_special c); discriminate.
  - destruct (regex_special c) eqn:Hc, (regex_special c') eqn:Hc'.
    + intros [= -> H]. f_equal. apply IH, H.
    + intros [= <- _]. discriminate Hc'.
    + intros [= -> _]. discriminate Hc.
    + intros [= -> H]. f_equal. apply IH, H.
Qed.

(** X14: in an escaped term every character of the class stands behind a
    backslash of its own, so that none of them is left bare; two different
    terms have different escapes; and a term without such characters is its
    own escape. *)
Theorem escapeRegex_escapes_every_special s :
  well_escaped (escapeRegex s)
  /\ (forall s', escapeRegex s = escapeRegex s' -> s = s')
  /\ (existsb regex_special (list_ascii_of_string s) = false -> escapeRegex s = s).
Proof.
  split; [|split].
  - induction s as [|c s IH]; simpl; [constructor|].
    destruct (regex_special c) eqn:Hc; constructor; assumption.
  - intros s'. apply escapeRegex_injective.
  - induction s as [|c s IH]; simpl; [reflexivity|].
    destruct (regex_special c); simpl; [discriminate|].
    intros H. f_equal. apply IH, H.
Qed.

Lemma escapeRegex_escapes_every_special_witness :
  escapeRegex "arriendo" = "arriendo"
  /\ well_escaped (escapeRegex "uf 3.500 (aprox.)").
Proof.
  split.
  - apply (escapeRegex_escapes_every_special "arriendo"). reflexivity.
  - apply (escapeRegex_escapes_every_special "uf 3.500 (aprox.)").
Defined.

(* ================================================================== *)
(** * Debounce and throttle *)

(** The last element of a list that is not empty, whatever the default. *)
Lemma last_default {A} (x : A) (l : list A) (d d' : A) :
  last (x :: l) d = last (x :: l) d'.
Proof.
  revert x. induction l as [|y l IH]; intros x; [reflexivity|].
  change (last (y :: l) d = last (y :: l) d'). apply IH.
Qed.

Section TimerProperties.

Variable Args : Type.

(** While a timer is pending, calls only replace it. *)
Lemma debounce_calls_pending immediate (l : list Args) pending_args calls :
  debounce_run immediate (map Called l) (mkDebounced (Some pending_args) calls)
  = mkDebounced (Some (last l pending_args)) calls.
Proof.
  revert pending_args. induction l as [|a l IH]; intros pending_args; [reflexivity|].
  unfold debounce_run in *. simpl map. simpl fold_left.
  unfold executedFunction at 1. simpl. rewrite Bool.andb_false_r.
  rewrite IH. destruct l as [|b l]; [reflexivity|].
  f_equal. f_equal. apply last_default.
Qed.

(** X15: a burst of calls of a debounced function, with no timer pending
    before and no expiry in between, followed by the expiry of the timer,
    calls the wrapped function exactly once: with the arguments of the last
    call of the burst, or in immediate mode with those of the first; no timer
    is left. *)
Theorem debounce_burst_calls_once immediate (st : Debounced Args) first rest :
  timeout st = None ->
  debounce_run immediate (map Called (first :: rest) ++ [Expired]) st
  = mkDebounced None
      (debounced_calls st ++ [if immediate then first else last rest first]).
Proof.
  intros Hidle. unfold debounce_run. rewrite fold_left_app.
  simpl map. simpl fold_left at 2.
  unfold executedFunction at 1. rewrite Hidle, Bool.andb_true_r.
  pose proof (debounce_calls_pending immediate rest first
                (if immediate then debounced_calls st ++ [first] else debounced_calls st))
    as Hburst.
  unfold debounce_run in Hburst. rewrite Hburst. simpl.
  unfold later. simpl. destruct immediate; reflexivity.
Qed.

Lemma throttle_run_app (l1 l2 : list (TimerEvent Args)) st :
  throttle_run (l1 ++ l2) st = throttle_run l2 (throttle_run l1 st).
Proof. unfold throttle_run. apply fold_left_app. Qed.

(** While the throttle holds, calls are dropped. *)
Lemma throttle_calls_dropped (l : list Args) calls :
  throttle_run (map Called l) (mkThrottled true calls) = mkThrottled true calls.
Proof. induction l as [|a l IH]; [reflexivity | exact IH]. Qed.

(** What can still be called: one call more when the throttle is free. *)
Lemma throttle_rate (events : list (TimerEvent Args)) st :
  List.length (throttled_calls (throttle_run events st))
  + (if inThrottle (throttle_run events st) then 0 else 1)
  <= List.length (throttled_calls st) + (if inThrottle st then 0 else 1)
     + expirations events.
Proof.
  revert st. induction events as [|e events IH]; intros st.
  - simpl. unfold expirations. simpl. lia.
  - change (throttle_run (e :: events) st)
      with (throttle_run events (throttle_event st e)).
    specialize (IH (throttle_event st e)).
    assert (Hstep : List.length (throttled_calls (throttle_event st e))
                    + (if inThrottle (throttle_event st e) then 0 else 1)
                    + expirations events
                    <= List.length (throttled_calls st)
                       + (if inThrottle st then 0 else 1)
                       + expirations (e :: events)).
    { destruct e as [args|]; unfold expirations; simpl.
      - unfold throttled. destruct (inThrottle st) eqn:Hin; simpl.
        + rewrite Hin. lia.
        + rewrite length_app. simpl. lia.
      - destruct (inThrottle st); lia. }
    lia.
Qed.

(** X16: a throttled function calls the wrapped function at most once more
    than its timer has expired, whatever the order of calls and expiries;
    of a burst of calls without expiry the first alone goes through, the
    others are dropped for good, and the first call after the expiry goes
    through again. *)
Theorem throttle_limits_calls (st : Throttled Args) :
  inThrottle st = false ->
  (forall events,
      List.length (throttled_calls (throttle_run events st))
      <= List.length (throttled_calls st) + 1 + expirations events)
  /\ (forall first rest next,
         throttled_calls
           (throttle_run (map Called (first :: rest) ++ [Expired; Called next]) st)
         = throttled_calls st ++ [first; next]).
Proof.
  intros Hfree. split.
  - intros events. pose proof (throttle_rate events st) as H.
    rewrite Hfree in H. destruct (inThrottle (throttle_run events st)); lia.
  - intros first rest next. rewrite throttle_run_app.
    change (throttle_run (map Called (first :: rest)) st)
      with (throttle_run (map Called rest) (throttled first st)).
    unfold throttled at 1. rewrite Hfree, throttle_calls_dropped.
    simpl. rewrite <- app_assoc. reflexivity.
Qed.

End TimerProperties.

Lemma debounce_burst_calls_once_witness :
  debounce_run false (map Called ["c"; "ca"; "cas"; "casa"] ++ [Expired])
               (mkDebounced None [])
  = mkDebounced None ["casa"]
  /\ debounce_run true (map Called ["c"; "ca"; "cas"; "casa"] ++ [Expired])
                  (mkDebounced None [])
     = mkDebounced None ["c"].
Proof.
  split.
  - apply (debounce_burst_calls_once string false (mkDebounced None []) "c"
             ["ca"; "cas"; "casa"]).
    reflexivity.
  - apply (debounce_burst_calls_once string true (mkDebounced None []) "c"
             ["ca"; "cas"; "casa"]).
    reflexivity.
Defined.

Lemma throttle_limits_calls_witness :
  throttled_calls
    (throttle_run (map Called [10; 20; 30] ++ [Expired; Called 40])
                  (mkThrottled false []))
  = [10; 40].
Proof.
  apply (proj2 (throttle_limits_calls nat (mkThrottled false []) eq_refl) 10 [20; 30] 40).
Defined.
